(** * militaryGameAsset: the character and weapon state machines

    A shallow embedding of [militaryGameAsset.cpp]: the [Weapon] class, the
    [MilitaryCharacter] class and the single-precision arithmetic both rely
    on, followed by the properties of the gameplay logic. *)

From Stdlib Require Import ZArith Bool List Lia.
From Stdlib Require Import Floats.SpecFloat.
From stdpp Require Import base option list gmap strings functions.

Local Open Scope Z_scope.

(** ** Single-precision floats

    C++ [float] is IEEE 754 binary32: 24 bits of precision, infinities at
    exponent 128.  Values are [spec_float]s and every operation rounds to
    nearest even, as the hardware does. *)
Module F32.

Definition prec : Z := 24.
Definition emax : Z := 128.

Definition float : Type := spec_float.

Definition add : float -> float -> float := SFadd prec emax.
Definition mul : float -> float -> float := SFmul prec emax.
Definition div : float -> float -> float := SFdiv prec emax.
Definition sqrt : float -> float := SFsqrt prec emax.
Definition ltb : float -> float -> bool := SFltb.
Definition leb : float -> float -> bool := SFleb.

(** [a > b] on floats: false as soon as one side is NaN. *)
Definition gtb (a b : float) : bool := ltb b a.

(** The float whose value is [m * 2^e]. *)
Definition of_Z2 (m e : Z) : float := binary_normalize prec emax m e false.

Definition zero : float := S754_zero false.
Definition one : float := of_Z2 1 0.

(** The literals of the source. *)
Definition lit_0_1 : float := S754_finite false 13421773 (-27). (* 0.1f *)
Definition lit_0_5 : float := of_Z2 1 (-1).
Definition lit_1_5 : float := of_Z2 3 (-1).
Definition lit_2 : float := of_Z2 2 0.
Definition lit_5 : float := of_Z2 5 0.
Definition lit_80 : float := of_Z2 80 0.
Definition lit_100 : float := of_Z2 100 0.
Definition lit_180 : float := of_Z2 180 0.
Definition lit_360 : float := of_Z2 360 0.

(** A proper binary32 value: the mantissa is canonical for its exponent. *)
Definition valid (x : float) : bool := valid_binary prec emax x.

(** Neither an infinity nor NaN. *)
Definition is_finite (x : float) : bool :=
  match x with
  | S754_zero _ | S754_finite _ _ _ => true
  | S754_infinity _ | S754_nan => false
  end.

(** [fmod x y]: the remainder of [x / y] truncated towards zero.  It has
    the sign of [x], magnitude below [|y|], and is always exact.  With
    [x = mx * 2^ex] and [y = my * 2^ey] both magnitudes are integers in
    units of [2^(min ex ey)], where the remainder is [Z.modulo].  Being
    exact, it is the same float whether the call resolves to the [float]
    or to the [double] overload. *)
Definition fmod (x y : float) : float :=
  match x, y with
  | S754_nan, _ | _, S754_nan => S754_nan
  | S754_infinity _, _ => S754_nan
  | _, S754_zero _ => S754_nan
  | S754_zero _, _ => x
  | S754_finite _ _ _, S754_infinity _ => x
  | S754_finite sx mx ex, S754_finite _ my ey =>
      let e := Z.min ex ey in
      let X := Z.pos mx * 2 ^ (ex - e) in
      let Y := Z.pos my * 2 ^ (ey - e) in
      binary_normalize prec emax (cond_Zopp sx (X mod Y)) e sx
  end.

End F32.

(** ** The part of glm the character uses *)
Module glm.

Record vec3 : Type := mk_vec3 { x : F32.float; y : F32.float; z : F32.float }.

(** [glm::vec3(s)]: all three components are [s]. *)
Definition splat (s : F32.float) : vec3 := mk_vec3 s s s.

(** [v * s] *)
Definition scale (v : vec3) (s : F32.float) : vec3 :=
  mk_vec3 (F32.mul (x v) s) (F32.mul (y v) s) (F32.mul (z v) s).

(** [a + b] *)
Definition plus (a b : vec3) : vec3 :=
  mk_vec3 (F32.add (x a) (x b)) (F32.add (y a) (y b)) (F32.add (z a) (z b)).

(** [glm::dot]: the products are summed left to right. *)
Definition dot (a b : vec3) : F32.float :=
  F32.add (F32.add (F32.mul (x a) (x b)) (F32.mul (y a) (y b)))
          (F32.mul (z a) (z b)).

(** [glm::length(v)] is [sqrt(dot(v, v))]. *)
Definition length (v : vec3) : F32.float := F32.sqrt (dot v v).

(** [glm::normalize(v)] is [v * inversesqrt(dot(v, v))], the inverse
    square root being [1 / sqrt]. *)
Definition normalize (v : vec3) : vec3 :=
  scale v (F32.div F32.one (F32.sqrt (dot v v))).

Definition set_y (v : vec3) (s : F32.float) : vec3 := mk_vec3 (x v) s (z v).

End glm.

(** ** 32-bit [int] *)
Definition INT_MIN : Z := - 2 ^ 31.
Definition INT_MAX : Z := 2 ^ 31 - 1.

(** The value an [int] holds after an arithmetic result [n] is stored. *)
Definition int_wrap (n : Z) : Z := (n + 2 ^ 31) mod 2 ^ 32 - 2 ^ 31.

Definition is_int (n : Z) : Prop := INT_MIN <= n <= INT_MAX.

(** ** class Weapon *)
Module Weapon.

Record WeaponStats : Type := mk_stats {
  maxAmmo : Z;
  currentAmmo : Z;
  damage : F32.float;
  range : F32.float;
  reloadTime : F32.float;
  fireRate : F32.float
}.

Record t : Type := mk {
  stats : WeaponStats;
  weaponType : string;
  lastShotTime : F32.float;
  isReloading : bool
}.

(** [Weapon(type, initialStats)] *)
Definition new (type : string) (initialStats : WeaponStats) : t :=
  mk initialStats type F32.zero false.

Definition GetCurrentTime (w : t) : F32.float := F32.zero.

Definition CanShoot (w : t) : bool :=
  negb (isReloading w) && (0 <? currentAmmo (stats w)).

Definition NeedsReload (w : t) : bool :=
  currentAmmo (stats w) =? 0.

Definition set_currentAmmo (s : WeaponStats) (n : Z) : WeaponStats :=
  mk_stats (maxAmmo s) n (damage s) (range s) (reloadTime s) (fireRate s).

(** [stats.currentAmmo--] is an [int] decrement, [lastShotTime] takes the
    current time. *)
Definition Shoot (w : t) : t :=
  if CanShoot w then
    mk (set_currentAmmo (stats w) (int_wrap (currentAmmo (stats w) - 1)))
       (weaponType w) (GetCurrentTime w) (isReloading w)
  else w.

Definition StartReload (w : t) : t :=
  if negb (isReloading w) then
    mk (stats w) (weaponType w) (lastShotTime w) true
  else w.

(** How a weapon may differ from an earlier state of itself: it has no more
    rounds than before, it has not changed at all if it was reloading, and
    it is still empty if it was. *)
Definition never_refills (w w' : t) : Prop :=
  currentAmmo (stats w') <= currentAmmo (stats w) /\
  (isReloading w = true -> w' = w) /\
  (currentAmmo (stats w) = 0 -> currentAmmo (stats w') = 0).



(** A pistol holding [n] of [n] rounds. *)
Definition pistol (n : Z) : t :=
  new "pistol" (mk_stats n n F32.lit_5 F32.lit_100 F32.lit_2 F32.one).

End Weapon.

(** ** class MilitaryCharacter *)
Module MilitaryCharacter.

Record CharacterStats : Type := mk_stats {
  health : F32.float;
  stamina : F32.float;
  speed : F32.float;
  rotationSpeed : F32.float;
  crouchSpeedMultiplier : F32.float;
  sprintSpeedMultiplier : F32.float
}.

(** The default member initialisers of [CharacterStats]. *)
Definition default_stats : CharacterStats :=
  mk_stats F32.lit_100 F32.lit_100 F32.lit_5 F32.lit_180 F32.lit_0_5 F32.lit_1_5.

Record AnimationState : Type := mk_anim {
  isRunning : bool;
  isCrouching : bool;
  isAiming : bool;
  isShooting : bool;
  isReloading : bool
}.

Definition default_anim : AnimationState := mk_anim false false false false false.

Definition set_isRunning (a : AnimationState) (b : bool) : AnimationState :=
  mk_anim b (isCrouching a) (isAiming a) (isShooting a) (isReloading a).
Definition set_isCrouching (a : AnimationState) (b : bool) : AnimationState :=
  mk_anim (isRunning a) b (isAiming a) (isShooting a) (isReloading a).
Definition set_isShooting (a : AnimationState) (b : bool) : AnimationState :=
  mk_anim (isRunning a) (isCrouching a) (isAiming a) b (isReloading a).
Definition set_isReloading (a : AnimationState) (b : bool) : AnimationState :=
  mk_anim (isRunning a) (isCrouching a) (isAiming a) (isShooting a) b.

Definition MAX_WEAPONS : nat := 3.

(** A [std::shared_ptr<Weapon>] is null ([None]) or the address of a
    [Weapon] it keeps alive.  Several references may share one weapon. *)
Abbreviation addr := nat (only parsing).
Abbreviation weapon_ptr := (option addr) (only parsing).

(** The weapons behind the references.  A reference cannot dangle, so
    reading through one is total. *)
Abbreviation weapon_store := (addr -> Weapon.t) (only parsing).

(** The engine classes are only forward-declared in the source; the
    character is written against these members of theirs. *)
Class Engine : Type := {
  Animation : Type;
  (** [Animation(file)] *)
  Animation_new : string -> Animation;
  Animation_Play : Animation -> Animation;
  PhysicsComponent : Type;
  PhysicsComponent_new : PhysicsComponent;
  SetCollisionCapsule :
    PhysicsComponent -> F32.float -> F32.float -> PhysicsComponent;
  SetMass : PhysicsComponent -> F32.float -> PhysicsComponent;
  (** The collider is handed the position and may move it. *)
  UpdateCollision :
    PhysicsComponent -> glm.vec3 -> PhysicsComponent * glm.vec3
}.

Section WithEngine.

Context {engine : Engine}.

Record t : Type := mk {
  position : glm.vec3;
  rotation : glm.vec3;
  velocity : glm.vec3;
  stats : CharacterStats;
  animState : AnimationState;
  physics : PhysicsComponent;
  currentWeapon : weapon_ptr;
  inventory : list weapon_ptr;
  currentAnimation : option Animation;
  animations : gmap string Animation
}.

Definition set_position (c : t) (v : glm.vec3) : t :=
  mk v (rotation c) (velocity c) (stats c) (animState c) (physics c)
     (currentWeapon c) (inventory c) (currentAnimation c) (animations c).
Definition set_rotation (c : t) (v : glm.vec3) : t :=
  mk (position c) v (velocity c) (stats c) (animState c) (physics c)
     (currentWeapon c) (inventory c) (currentAnimation c) (animations c).
Definition set_velocity (c : t) (v : glm.vec3) : t :=
  mk (position c) (rotation c) v (stats c) (animState c) (physics c)
     (currentWeapon c) (inventory c) (currentAnimation c) (animations c).
Definition set_animState (c : t) (a : AnimationState) : t :=
  mk (position c) (rotation c) (velocity c) (stats c) a (physics c)
     (currentWeapon c) (inventory c) (currentAnimation c) (animations c).
Definition set_physics (c : t) (p : PhysicsComponent) : t :=
  mk (position c) (rotation c) (velocity c) (stats c) (animState c) p
     (currentWeapon c) (inventory c) (currentAnimation c) (animations c).
Definition set_currentWeapon (c : t) (w : weapon_ptr) : t :=
  mk (position c) (rotation c) (velocity c) (stats c) (animState c) (physics c)
     w (inventory c) (currentAnimation c) (animations c).
Definition set_inventory (c : t) (l : list weapon_ptr) : t :=
  mk (position c) (rotation c) (velocity c) (stats c) (animState c) (physics c)
     (currentWeapon c) l (currentAnimation c) (animations c).
Definition set_currentAnimation (c : t) (a : option Animation) : t :=
  mk (position c) (rotation c) (velocity c) (stats c) (animState c) (physics c)
     (currentWeapon c) (inventory c) a (animations c).
Definition set_animations (c : t) (m : gmap string Animation) : t :=
  mk (position c) (rotation c) (velocity c) (stats c) (animState c) (physics c)
     (currentWeapon c) (inventory c) (currentAnimation c) m.

(** *** Animation handling *)

Definition DetermineAnimation (c : t) : string :=
  if isReloading (animState c) then "reload"
  else if isShooting (animState c) then "shoot"
  else if isCrouching (animState c) then "crouch"
  else if isRunning (animState c) then "run"
  else if F32.gtb (glm.length (velocity c)) F32.lit_0_1 then "walk"
  else "idle".

(** The clip found under [animName] is copied and the copy played;
    an unknown name leaves the current animation alone. *)
Definition PlayAnimation (animName : string) (c : t) : t :=
  match animations c !! animName with
  | Some clip => set_currentAnimation c (Some (Animation_Play clip))
  | None => c
  end.

Definition UpdateAnimation (c : t) : t :=
  let animName := DetermineAnimation c in
  PlayAnimation animName c.

(** *** Construction *)

Definition InitializePhysics : PhysicsComponent :=
  SetMass (SetCollisionCapsule PhysicsComponent_new F32.lit_0_5 F32.lit_2)
          F32.lit_80.

Definition LoadAnimations (m : gmap string Animation) : gmap string Animation :=
  <["reload" := Animation_new "reload.anim"]>
  (<["shoot" := Animation_new "shoot.anim"]>
  (<["crouch" := Animation_new "crouch.anim"]>
  (<["run" := Animation_new "run.anim"]>
  (<["walk" := Animation_new "walk.anim"]>
  (<["idle" := Animation_new "idle.anim"]> m))))).

(** [MilitaryCharacter(startPos)] *)
Definition new (startPos : glm.vec3) : t :=
  mk startPos (glm.splat F32.zero) (glm.splat F32.zero)
     default_stats default_anim InitializePhysics
     None [] None (LoadAnimations ∅).

(** *** Movement *)

Definition Move (direction : glm.vec3) (deltaTime : F32.float) (c : t) : t :=
  let moveDirection := glm.normalize direction in
  let currentSpeed := speed (stats c) in
  let currentSpeed :=
    if isCrouching (animState c) then
      F32.mul currentSpeed (crouchSpeedMultiplier (stats c))
    else if isRunning (animState c) then
      F32.mul currentSpeed (sprintSpeedMultiplier (stats c))
    else currentSpeed in
  let c := set_velocity c (glm.scale moveDirection currentSpeed) in
  let c := set_position c (glm.plus (position c) (glm.scale (velocity c) deltaTime)) in
  let c := UpdateAnimation c in
  let '(ph, pos) := UpdateCollision (physics c) (position c) in
  set_position (set_physics c ph) pos.

Definition Rotate (yawDelta deltaTime : F32.float) (c : t) : t :=
  let c :=
    set_rotation c
      (glm.set_y (rotation c)
         (F32.add (glm.y (rotation c))
            (F32.mul (F32.mul yawDelta (rotationSpeed (stats c))) deltaTime))) in
  (* Normalize rotation to 0-360 degrees *)
  set_rotation c (glm.set_y (rotation c) (F32.fmod (glm.y (rotation c)) F32.lit_360)).

(** *** State changes *)

Definition ToggleCrouch (c : t) : t :=
  UpdateAnimation
    (set_animState c (set_isCrouching (animState c) (negb (isCrouching (animState c))))).

Definition StartSprint (c : t) : t :=
  if negb (isCrouching (animState c)) && negb (isAiming (animState c)) then
    UpdateAnimation (set_animState c (set_isRunning (animState c) true))
  else c.

Definition StopSprint (c : t) : t :=
  UpdateAnimation (set_animState c (set_isRunning (animState c) false)).

(** *** Combat *)

Definition PickupWeapon (weapon : weapon_ptr) (c : t) : bool * t :=
  if (List.length (inventory c) <? MAX_WEAPONS)%nat then
    let c := set_inventory c (inventory c ++ [weapon]) in
    let c := match currentWeapon c with
             | None => set_currentWeapon c weapon
             | Some _ => c
             end in
    (true, c)
  else (false, c).

(** [Shoot] and [Reload] reach through [currentWeapon] into the weapon
    it shares with the inventory, so they run on the character together
    with the weapon store. *)
Record world : Type := mk_world { self : t; weapons : weapon_store }.

Definition Reload (g : world) : world :=
  match currentWeapon (self g) with
  | Some p =>
      if negb (isReloading (animState (self g))) then
        let c := set_animState (self g) (set_isReloading (animState (self g)) true) in
        let ws := alter Weapon.StartReload p (weapons g) in
        mk_world (PlayAnimation "reload" c) ws
      else g
  | None => g
  end.

Definition Shoot (g : world) : world :=
  match currentWeapon (self g) with
  | Some p =>
      if negb (isReloading (animState (self g))) then
        if Weapon.CanShoot (weapons g p) then
          let c := set_animState (self g) (set_isShooting (animState (self g)) true) in
          let ws := alter Weapon.Shoot p (weapons g) in
          mk_world (PlayAnimation "shoot" c) ws
        else if Weapon.NeedsReload (weapons g p) then Reload g
        else g
      else g
  | None => g
  end.

(** *** Sequences of calls *)

Inductive call : Type :=
| call_Move (direction : glm.vec3) (deltaTime : F32.float)
| call_Rotate (yawDelta deltaTime : F32.float)
| call_PickupWeapon (weapon : weapon_ptr)
| call_Shoot
| call_Reload
| call_ToggleCrouch
| call_StartSprint
| call_StopSprint
| call_UpdateAnimation
| call_Weapon_Shoot (p : addr)
| call_Weapon_StartReload (p : addr).

Definition on_self (f : t -> t) (g : world) : world :=
  mk_world (f (self g)) (weapons g).

Definition on_weapon (f : Weapon.t -> Weapon.t) (p : addr) (g : world) : world :=
  mk_world (self g) (alter f p (weapons g)).

Definition step (k : call) (g : world) : world :=
  match k with
  | call_Move d dt => on_self (Move d dt) g
  | call_Rotate yd dt => on_self (Rotate yd dt) g
  | call_PickupWeapon w => on_self (fun c => snd (PickupWeapon w c)) g
  | call_Shoot => Shoot g
  | call_Reload => Reload g
  | call_ToggleCrouch => on_self ToggleCrouch g
  | call_StartSprint => on_self StartSprint g
  | call_StopSprint => on_self StopSprint g
  | call_UpdateAnimation => on_self UpdateAnimation g
  | call_Weapon_Shoot p => on_weapon Weapon.Shoot p g
  | call_Weapon_StartReload p => on_weapon Weapon.StartReload p g
  end.

Definition run (ks : list call) (g : world) : world :=
  fold_left (fun g k => step k g) ks g.

(** *** The selection table of the specification

    The specification words [DetermineAnimation] as a priority list read
    top down, the first entry whose condition holds giving the clip, and
    "idle" when none does. *)
Definition priority_list (c : t) : list (bool * string) :=
  [ (isReloading (animState c), "reload");
    (isShooting (animState c), "shoot");
    (isCrouching (animState c), "crouch");
    (isRunning (animState c), "run");
    (F32.gtb (glm.length (velocity c)) F32.lit_0_1, "walk") ].

Fixpoint first_match (table : list (bool * string)) (otherwise : string) : string :=
  match table with
  | [] => otherwise
  | (cond, name) :: rest => if cond then name else first_match rest otherwise
  end.

Definition clip_names : list string :=
  ["reload"; "shoot"; "crouch"; "run"; "walk"; "idle"].

(** The yaw [Rotate] has reached after its increment, before the
    remainder is taken. *)
Definition incremented_yaw (c : t) (yawDelta deltaTime : F32.float) : F32.float :=
  F32.add (glm.y (rotation c))
          (F32.mul (F32.mul yawDelta (rotationSpeed (stats c))) deltaTime).

(** Only [PickupWeapon] writes the inventory or the equipped reference, and
    nothing writes the clip library after construction; [same_equipment]
    says that all three are as before. *)
Definition same_equipment (c c' : t) : Prop :=
  currentWeapon c' = currentWeapon c /\
  inventory c' = inventory c /\
  animations c' = animations c.

(** The clip the library holds under [name], once copied and played. *)
Definition clip_of (name : string) : Animation :=
  Animation_Play (Animation_new (String.append name ".anim")).

(** Nothing has been played yet, or what plays is the clip of the state
    the character is in. *)
Definition animation_matches_state (c : t) : Prop :=
  currentAnimation c = None \/
  currentAnimation c = Some (clip_of (DetermineAnimation c)).

(** Flags that no call lowers, and the one no call writes. *)
Definition flags_advance (a a' : AnimationState) : Prop :=
  (isShooting a = true -> isShooting a' = true) /\
  (isReloading a = true -> isReloading a' = true) /\
  isAiming a' = isAiming a.

(** The worlds that can arise: a character fresh from its constructor,
    among any weapons, after any sequence of calls. *)
Definition reachable (g : world) : Prop :=
  exists (ks : list call) (startPos : glm.vec3) (ws : weapon_store),
    g = run ks (mk_world (new startPos) ws).

(** The equipped weapon, when there is one, is one of the weapons held. *)
Definition equipped_in_inventory (c : t) : Prop :=
  forall p : addr, currentWeapon c = Some p -> In (Some p) (inventory c).

End WithEngine.

(** *** A small engine to run the character on

    Clips are their asset names, playing a clip leaves it as it is, and the
    collider keeps every position it is shown. *)
Definition plain_engine : Engine := {|
  Animation := string;
  Animation_new := fun file => file;
  Animation_Play := fun clip => clip;
  PhysicsComponent := unit;
  PhysicsComponent_new := tt;
  SetCollisionCapsule := fun ph _ _ => ph;
  SetMass := fun ph _ => ph;
  UpdateCollision := fun ph pos => (ph, pos)
|}.

Definition origin : glm.vec3 := glm.splat F32.zero.

(** A character fresh from its constructor, at the origin. *)
Definition fresh : t (engine := plain_engine) := new origin.

(** One pistol with a single round behind every reference. *)
Definition armoury : nat -> Weapon.t := fun _ => Weapon.pistol 1.

(** The character after picking up the pistol and firing its only round. *)
Definition spent : world (engine := plain_engine) :=
  run [call_PickupWeapon (Some 0%nat); call_Shoot] (mk_world fresh armoury).

(** The character after picking up the pistol, its round still in. *)
Definition armed : world (engine := plain_engine) :=
  run [call_PickupWeapon (Some 0%nat)] (mk_world fresh armoury).

End MilitaryCharacter.

(** * Properties *)

(** ** 32-bit arithmetic *)

Lemma int_wrap_id (n : Z) : is_int n -> int_wrap n = n.
Proof.
  unfold is_int, INT_MIN, INT_MAX, int_wrap. intros Hn.
  rewrite Z.mod_small; lia.
Qed.

Lemma int_wrap_le (n : Z) : 0 <= n -> int_wrap n <= n.
Proof.
  unfold int_wrap. intros Hn.
  pose proof (Z.mod_le (n + 2 ^ 31) (2 ^ 32)). lia.
Qed.

Lemma int_wrap_range (n : Z) : is_int (int_wrap n).
Proof.
  unfold is_int, INT_MIN, INT_MAX, int_wrap.
  pose proof (Z.mod_pos_bound (n + 2 ^ 31) (2 ^ 32)). lia.
Qed.

(** ** Single-precision remainders *)
Module F32Spec.

Lemma digits2_pos_size (p : positive) : digits2_pos p = Pos.size p.
Proof. induction p; simpl; congruence. Qed.

Lemma digits2_pos_le (p : positive) (n : Z) :
  0 <= n -> Z.pos p < 2 ^ n -> Z.pos (digits2_pos p) <= n.
Proof.
  rewrite digits2_pos_size. intros Hn Hlt.
  pose proof (Pos.size_le p) as Hle.
  apply Pos2Z.pos_le_pos in Hle. rewrite Pos2Z.inj_pow in Hle.
  assert (Hpow : 2 ^ Z.pos (Pos.size p) < 2 ^ (n + 1)).
  { rewrite Z.pow_add_r by lia. lia. }
  apply Z.pow_lt_mono_r_iff in Hpow; lia.
Qed.

Lemma digits2_pos_gt (p : positive) : Z.pos p < 2 ^ Z.pos (digits2_pos p).
Proof.
  rewrite digits2_pos_size. pose proof (Pos.size_gt p) as Hgt.
  apply Pos2Z.pos_lt_pos in Hgt. rewrite Pos2Z.inj_pow in Hgt. exact Hgt.
Qed.

Lemma iter_xO_value (r k : positive) :
  Z.pos (Pos.iter xO r k) = Z.pos r * 2 ^ Z.pos k.
Proof.
  induction k as [| k IH] using Pos.peano_ind.
  - simpl. lia.
  - rewrite Pos.iter_succ, Pos2Z.inj_xO, IH, Pos2Z.inj_succ, Z.pow_succ_r by lia. lia.
Qed.

Lemma iter_xO_digits (r k : positive) :
  digits2_pos (Pos.iter xO r k) = (digits2_pos r + k)%positive.
Proof.
  induction k as [| k IH] using Pos.peano_ind.
  - simpl. lia.
  - rewrite Pos.iter_succ. simpl. rewrite IH. lia.
Qed.

(** Rounding a number that already fits is exact. *)
Lemma binary_round_fits (r : positive) (e : Z) :
  Z.pos r < 2 ^ 24 -> -149 <= e <= 104 ->
  exists (m : positive) (f : Z),
    binary_round F32.prec F32.emax false r e = S754_finite false m f /\
    f <= e /\ Z.pos m = Z.pos r * 2 ^ (e - f).
Proof.
  intros Hr He.
  pose proof (digits2_pos_le r 24 ltac:(lia) Hr) as Hd.
  unfold F32.prec, F32.emax, binary_round.
  set (d := digits2_pos r) in *.
  set (f := fexp 24 128 (Z.pos d + e)).
  assert (Hf : f <= e /\ -149 <= f).
  { subst f. unfold fexp, emin. lia. }
  assert (Hal : exists m, shl_align r e f = (m, f) /\ Z.pos m = Z.pos r * 2 ^ (e - f)
                          /\ Z.pos (digits2_pos m) = Z.pos d + (e - f)).
  { unfold shl_align. destruct (f - e) as [| q | q] eqn:Hq; try lia.
    - exists r. assert (Hfe : e = f) by lia.
      replace (e - f) with 0 by lia. fold d.
      split; [f_equal; exact Hfe | split; lia].
    - exists (Pos.iter xO r q). rewrite iter_xO_value, iter_xO_digits.
      replace (e - f) with (Z.pos q) by lia. repeat split; fold d; lia. }
  destruct Hal as (m & -> & Hm & Hdm).
  exists m, f. split; [| split; [lia | exact Hm]].
  unfold binary_round_aux, shr_fexp. cbn [Zdigits2].
  rewrite Hdm. replace (Z.pos d + (e - f) + f) with (Z.pos d + e) by lia.
  fold f. rewrite Z.sub_diag. cbn [shr shr_record_of_loc loc_of_shr_record shr_m round_nearest_even Zdigits2].
  rewrite Hdm. replace (Z.pos d + (e - f) + f) with (Z.pos d + e) by lia.
  fold f. rewrite Z.sub_diag. cbn [shr shr_record_of_loc shr_m].
  replace (f <=? 128 - 24) with true by (symmetry; apply Z.leb_le; lia).
  reflexivity.
Qed.

(** The literal [0.1f] is the float nearest to one tenth. *)
Lemma lit_0_1_nearest : F32.div F32.one (F32.of_Z2 10 0) = F32.lit_0_1.
Proof. vm_compute. reflexivity. Qed.

Lemma lit_360_eq : F32.lit_360 = S754_finite false 11796480 (-15).
Proof. vm_compute. reflexivity. Qed.

(** A proper finite float has at most 24 significant bits and an exponent
    of at least -149. *)
Lemma valid_finite (s : bool) (m : positive) (e : Z) :
  F32.valid (S754_finite s m e) = true -> Z.pos m < 2 ^ 24 /\ -149 <= e <= 104.
Proof.
  unfold F32.valid, F32.prec, F32.emax, valid_binary, bounded, canonical_mantissa.
  rewrite andb_true_iff, Z.eqb_eq, Z.leb_le. unfold fexp, emin. intros [Hc He].
  pose proof (digits2_pos_gt m) as Hgt.
  assert (Hd : Z.pos (digits2_pos m) <= 24) by lia.
  assert (Hpow : 2 ^ Z.pos (digits2_pos m) <= 2 ^ 24)
    by (apply Z.pow_le_mono_r; lia).
  lia.
Qed.

(** The remainder modulo 360 of a finite float that is not negative lies
    in [0, 360). *)
Lemma fmod_360_range (s : F32.float) :
  F32.valid s = true -> F32.is_finite s = true -> F32.leb F32.zero s = true ->
  F32.leb F32.zero (F32.fmod s F32.lit_360) = true /\
  F32.ltb (F32.fmod s F32.lit_360) F32.lit_360 = true.
Proof.
  rewrite lit_360_eq. intros Hvalid Hfin Hpos.
  destruct s as [sz | si | | sx mx ex]; try discriminate Hfin.
  - destruct sz; split; reflexivity.
  - destruct sx; [discriminate Hpos |].
    apply valid_finite in Hvalid as [Hm He].
    unfold F32.fmod. cbn [cond_Zopp].
    set (e := Z.min ex (-15)).
    set (X := Z.pos mx * 2 ^ (ex - e)).
    set (Y := 11796480 * 2 ^ (-15 - e)).
    assert (HY : 0 < Y) by (subst Y; apply Z.mul_pos_pos; [lia | apply Z.pow_pos_nonneg; lia]).
    assert (HX : 0 <= X) by (subst X; apply Z.mul_nonneg_nonneg; [lia | apply Z.pow_nonneg; lia]).
    pose proof (Z.mod_pos_bound X Y HY) as HR.
    assert (HR24 : X mod Y < 2 ^ 24).
    { destruct (Z_le_gt_dec (-15) ex) as [Hge | Hlt].
      - assert (HYv : Y = 11796480) by (subst Y e; rewrite Z.min_r by lia; reflexivity).
        lia.
      - assert (HXv : X = Z.pos mx)
          by (subst X e; rewrite Z.min_l by lia; rewrite Z.sub_diag; lia).
        pose proof (Z.mod_le X Y HX HY). lia. }
    destruct (X mod Y) as [| r | r] eqn:Hmod; [split; reflexivity | | lia].
    cbn [binary_normalize].
    destruct (binary_round_fits r e HR24 ltac:(subst e; lia)) as (m & f & -> & Hfe & Hmv).
    split; [reflexivity |].
    unfold F32.ltb, SFltb, SFcompare.
    destruct (Z.compare_spec f (-15)) as [Heq | Hlt | Hgt]; [| reflexivity | subst e; lia].
    assert (He15 : e = -15) by (subst e; lia).
    assert (Hm0 : Z.pos m = Z.pos r) by (rewrite Hmv, He15, Heq; simpl; lia).
    assert (HYv : Y = 11796480) by (subst Y; rewrite He15; reflexivity).
    assert (Hlt : (m < 11796480)%positive) by lia.
    change (Pos.compare_cont Eq m 11796480) with (m ?= 11796480)%positive.
    rewrite (proj2 (Pos.compare_lt_iff m 11796480) Hlt). reflexivity.
Qed.

End F32Spec.

(** ** Weapon *)
Module WeaponSpec.

Import Weapon.

Lemma CanShoot_spec (w : Weapon.t) :
  CanShoot w = true <-> isReloading w = false /\ 0 < currentAmmo (stats w).
Proof.
  unfold CanShoot. rewrite andb_true_iff, negb_true_iff, Z.ltb_lt. tauto.
Qed.

Lemma CanShoot_false (w : Weapon.t) :
  CanShoot w = false <-> isReloading w = true \/ currentAmmo (stats w) <= 0.
Proof.
  unfold CanShoot. rewrite andb_false_iff, negb_false_iff, Z.ltb_ge. tauto.
Qed.

Lemma Shoot_idle (w : Weapon.t) : CanShoot w = false -> Shoot w = w.
Proof. unfold Shoot. intros ->. reflexivity. Qed.

Lemma Shoot_fires (w : Weapon.t) :
  CanShoot w = true -> currentAmmo (stats (Shoot w)) = int_wrap (currentAmmo (stats w) - 1).
Proof. unfold Shoot. intros ->. reflexivity. Qed.

Lemma Shoot_isReloading (w : Weapon.t) : isReloading (Shoot w) = isReloading w.
Proof. unfold Shoot. destruct (CanShoot w); reflexivity. Qed.

Lemma Shoot_ammo_le (w : Weapon.t) : currentAmmo (stats (Shoot w)) <= currentAmmo (stats w).
Proof.
  destruct (CanShoot w) eqn:Hc.
  - rewrite Shoot_fires by exact Hc.
    apply CanShoot_spec in Hc as [_ Hpos].
    pose proof (int_wrap_le (currentAmmo (stats w) - 1)). lia.
  - rewrite Shoot_idle by exact Hc. lia.
Qed.

Lemma Shoot_ammo_nonneg (w : Weapon.t) :
  is_int (currentAmmo (stats w)) -> 0 <= currentAmmo (stats w) -> 0 <= currentAmmo (stats (Shoot w)).
Proof.
  intros Hint Hpos. destruct (CanShoot w) eqn:Hc.
  - rewrite Shoot_fires by exact Hc.
    apply CanShoot_spec in Hc as [_ Hlt].
    rewrite int_wrap_id; [lia | unfold is_int, INT_MIN, INT_MAX in *; lia].
  - rewrite Shoot_idle by exact Hc. exact Hpos.
Qed.

Lemma Shoot_ammo_int (w : Weapon.t) : is_int (currentAmmo (stats w)) -> is_int (currentAmmo (stats (Shoot w))).
Proof.
  intros Hint. destruct (CanShoot w) eqn:Hc.
  - rewrite Shoot_fires by exact Hc. apply int_wrap_range.
  - rewrite Shoot_idle by exact Hc. exact Hint.
Qed.

Lemma Shoot_empty (w : Weapon.t) : currentAmmo (stats w) = 0 -> Shoot w = w.
Proof. intros H0. apply Shoot_idle, CanShoot_false. right. lia. Qed.

Lemma Shoot_while_reloading (w : Weapon.t) : isReloading w = true -> Shoot w = w.
Proof. intros Hr. apply Shoot_idle, CanShoot_false. left. exact Hr. Qed.

Lemma StartReload_isReloading (w : Weapon.t) : isReloading (StartReload w) = true.
Proof. unfold StartReload. destruct (isReloading w) eqn:Hr; simpl; auto. Qed.

Lemma StartReload_stats (w : Weapon.t) : stats (StartReload w) = stats w.
Proof. unfold StartReload. destruct (isReloading w); reflexivity. Qed.

Lemma StartReload_again (w : Weapon.t) : isReloading w = true -> StartReload w = w.
Proof. unfold StartReload. intros ->. reflexivity. Qed.

Lemma never_refills_refl (w : Weapon.t) : never_refills w w.
Proof. unfold never_refills. repeat split; auto; lia. Qed.

Lemma never_refills_trans (a b c : Weapon.t) :
  never_refills a b -> never_refills b c -> never_refills a c.
Proof.
  unfold never_refills. intros (Hle1 & Hfr1 & Hz1) (Hle2 & Hfr2 & Hz2).
  split; [lia |]. split.
  - intros Hr. rewrite <- (Hfr1 Hr). apply Hfr2. rewrite (Hfr1 Hr). exact Hr.
  - intros Hz. apply Hz2, Hz1, Hz.
Qed.

Lemma Shoot_never_refills (w : Weapon.t) : never_refills w (Shoot w).
Proof.
  split; [apply Shoot_ammo_le |]. split.
  - apply Shoot_while_reloading.
  - intros Hz. rewrite Shoot_empty; assumption.
Qed.

Lemma StartReload_never_refills (w : Weapon.t) : never_refills w (StartReload w).
Proof.
  unfold never_refills. rewrite StartReload_stats.
  split; [lia |]. split; [apply StartReload_again | trivial].
Qed.

(** C3.  [Weapon::Shoot] takes exactly one round when [CanShoot] holds at
    the call, that is when the weapon is not reloading and has ammunition;
    otherwise it changes nothing.  Hence the count never drops below zero,
    however often the trigger is pulled. *)
Theorem Shoot_decrements_iff_CanShoot (w : Weapon.t) (Hint : is_int (currentAmmo (stats w))) :
  (CanShoot w = true <-> isReloading w = false /\ 0 < currentAmmo (stats w)) /\
  (CanShoot w = true -> currentAmmo (stats (Shoot w)) = currentAmmo (stats w) - 1) /\
  (CanShoot w = false -> Shoot w = w) /\
  (0 <= currentAmmo (stats w) -> forall n : nat, 0 <= currentAmmo (stats (Nat.iter n Shoot w))).
Proof.
  split; [apply CanShoot_spec |].
  split; [| split; [apply Shoot_idle |]].
  - intros Hc. rewrite Shoot_fires by exact Hc.
    apply CanShoot_spec in Hc as [_ Hlt].
    apply int_wrap_id. unfold is_int, INT_MIN, INT_MAX in *. lia.
  - intros Hpos n.
    assert (Hn : is_int (currentAmmo (stats (Nat.iter n Shoot w))) /\ 0 <= currentAmmo (stats (Nat.iter n Shoot w))).
    { induction n as [| n [IHi IHp]]; simpl.
      - split; assumption.
      - split; [apply Shoot_ammo_int | apply Shoot_ammo_nonneg]; assumption. }
    apply Hn.
Qed.

Lemma Shoot_decrements_iff_CanShoot_witness :
  is_int (currentAmmo (stats (pistol 1))) /\
  currentAmmo (stats (Shoot (pistol 1))) = 0 /\
  currentAmmo (stats (Shoot (Shoot (pistol 1)))) = 0.
Proof.
  assert (Hint : is_int (currentAmmo (stats (pistol 1))))
    by (split; discriminate).
  split; [exact Hint |].
  destruct (Shoot_decrements_iff_CanShoot (pistol 1) Hint)
    as (_ & Hfire & _ & _).
  split; [exact (Hfire eq_refl) | reflexivity].
Defined.

(** C7.  [NeedsReload] answers true exactly when no round is left; the
    weapon's reloading flag plays no part in the answer. *)
Theorem NeedsReload_iff_empty (w : Weapon.t) :
  (NeedsReload w = true <-> currentAmmo (stats w) = 0) /\
  (forall b : bool,
      NeedsReload (mk (stats w) (weaponType w) (lastShotTime w) b) = NeedsReload w).
Proof.
  split.
  - unfold NeedsReload. apply Z.eqb_eq.
  - intros b. reflexivity.
Qed.

End WeaponSpec.

(** ** MilitaryCharacter *)
Module CharacterSpec.

Import MilitaryCharacter.

Section WithEngine.

Context {engine : Engine}.

(** *** What each call leaves alone *)

Lemma same_equipment_refl (c : t) : same_equipment c c.
Proof. repeat split. Qed.

Lemma same_equipment_trans (a b c : t) :
  same_equipment a b -> same_equipment b c -> same_equipment a c.
Proof. unfold same_equipment. intros (-> & -> & ->) (-> & -> & ->). repeat split. Qed.

Lemma PlayAnimation_equipment (name : string) (c : t) :
  same_equipment c (PlayAnimation name c).
Proof.
  unfold PlayAnimation. destruct (animations c !! name); repeat split.
Qed.

Lemma PlayAnimation_animState (name : string) (c : t) :
  animState (PlayAnimation name c) = animState c.
Proof. unfold PlayAnimation. destruct (animations c !! name); reflexivity. Qed.

Lemma UpdateAnimation_equipment (c : t) : same_equipment c (UpdateAnimation c).
Proof. apply PlayAnimation_equipment. Qed.

Lemma UpdateAnimation_animState (c : t) : animState (UpdateAnimation c) = animState c.
Proof. apply PlayAnimation_animState. Qed.

Lemma Move_equipment (d : glm.vec3) (dt : F32.float) (c : t) :
  same_equipment c (Move d dt c).
Proof.
  unfold Move.
  match goal with
  | |- context [UpdateAnimation ?c0] => remember c0 as c1 eqn:Hc1
  end.
  destruct (UpdateAnimation_equipment c1) as (Hw & Hi & Ha).
  destruct (UpdateCollision _ _) as [ph' pos'].
  unfold same_equipment. cbn [currentWeapon inventory animations set_position set_physics].
  rewrite Hw, Hi, Ha, Hc1. repeat split.
Qed.

Lemma Rotate_equipment (yd dt : F32.float) (c : t) : same_equipment c (Rotate yd dt c).
Proof. repeat split. Qed.

Lemma ToggleCrouch_equipment (c : t) : same_equipment c (ToggleCrouch c).
Proof.
  unfold ToggleCrouch.
  eapply same_equipment_trans; [| apply UpdateAnimation_equipment]. repeat split.
Qed.

Lemma StartSprint_equipment (c : t) : same_equipment c (StartSprint c).
Proof.
  unfold StartSprint.
  destruct (negb (isCrouching (animState c)) && negb (isAiming (animState c))).
  - eapply same_equipment_trans; [| apply UpdateAnimation_equipment]. repeat split.
  - apply same_equipment_refl.
Qed.

Lemma StopSprint_equipment (c : t) : same_equipment c (StopSprint c).
Proof.
  unfold StopSprint.
  eapply same_equipment_trans; [| apply UpdateAnimation_equipment]. repeat split.
Qed.

Lemma Reload_equipment (g : world) : same_equipment (self g) (self (Reload g)).
Proof.
  unfold Reload. destruct (currentWeapon (self g)) as [p |]; [| apply same_equipment_refl].
  destruct (negb (isReloading (animState (self g)))); [| apply same_equipment_refl].
  simpl. eapply same_equipment_trans; [| apply PlayAnimation_equipment]. repeat split.
Qed.

Lemma Shoot_equipment (g : world) : same_equipment (self g) (self (Shoot g)).
Proof.
  unfold Shoot. destruct (currentWeapon (self g)) as [p |] eqn:Hw; [| apply same_equipment_refl].
  destruct (negb (isReloading (animState (self g)))); [| apply same_equipment_refl].
  destruct (Weapon.CanShoot (weapons g p)).
  - simpl. eapply same_equipment_trans; [| apply PlayAnimation_equipment]. repeat split.
  - destruct (Weapon.NeedsReload (weapons g p));
      [apply Reload_equipment | apply same_equipment_refl].
Qed.

#[local] Instance is_pickup_dec (k : call) : Decision (exists w, k = call_PickupWeapon w).
Proof.
  destruct k as [| | w | | | | | | | |];
    first [ left; exists w; reflexivity | right; intros [w' Hw']; discriminate ].
Defined.

(** Every call but [PickupWeapon] keeps the equipment. *)
Lemma step_equipment (k : call) (g : world) :
  (forall w, k <> call_PickupWeapon w) -> same_equipment (self g) (self (step k g)).
Proof.
  intros Hk. destruct k; simpl;
    first [ apply Move_equipment | apply Rotate_equipment | apply Shoot_equipment
          | apply Reload_equipment | apply ToggleCrouch_equipment
          | apply StartSprint_equipment | apply StopSprint_equipment
          | apply UpdateAnimation_equipment | apply same_equipment_refl
          | exfalso; eapply Hk; reflexivity ].
Qed.

(** *** PickupWeapon *)

Lemma PickupWeapon_room (w : weapon_ptr) (c : t) :
  (length (inventory c) < MAX_WEAPONS)%nat ->
  PickupWeapon w c =
    (true,
     match currentWeapon c with
     | None => set_currentWeapon (set_inventory c (inventory c ++ [w])) w
     | Some _ => set_inventory c (inventory c ++ [w])
     end).
Proof.
  intros Hlt. unfold PickupWeapon.
  apply Nat.ltb_lt in Hlt. rewrite Hlt. simpl.
  destruct (currentWeapon c); reflexivity.
Qed.

Lemma PickupWeapon_full (w : weapon_ptr) (c : t) :
  (MAX_WEAPONS <= length (inventory c))%nat -> PickupWeapon w c = (false, c).
Proof.
  intros Hge. unfold PickupWeapon.
  apply Nat.ltb_ge in Hge. rewrite Hge. reflexivity.
Qed.

Lemma PickupWeapon_inventory_bound (w : weapon_ptr) (c : t) :
  (length (inventory c) <= MAX_WEAPONS)%nat ->
  (length (inventory (snd (PickupWeapon w c))) <= MAX_WEAPONS)%nat.
Proof.
  intros Hle. destruct (Nat.lt_ge_cases (length (inventory c)) MAX_WEAPONS) as [Hlt | Hge].
  - rewrite PickupWeapon_room by exact Hlt. simpl.
    destruct (currentWeapon c); simpl; rewrite length_app; simpl; lia.
  - rewrite PickupWeapon_full by exact Hge. exact Hle.
Qed.

Lemma PickupWeapon_animations (w : weapon_ptr) (c : t) :
  animations (snd (PickupWeapon w c)) = animations c.
Proof.
  unfold PickupWeapon. destruct (_ <? _)%nat; [| reflexivity].
  simpl. destruct (currentWeapon c); reflexivity.
Qed.

Lemma step_inventory_bound (k : call) (g : world) :
  (length (inventory (self g)) <= MAX_WEAPONS)%nat ->
  (length (inventory (self (step k g))) <= MAX_WEAPONS)%nat.
Proof.
  intros Hle.
  destruct (decide (exists w, k = call_PickupWeapon w)) as [[w ->] | Hk].
  - simpl. apply PickupWeapon_inventory_bound, Hle.
  - destruct (step_equipment k g) as (_ & -> & _); [| exact Hle].
    intros w ->. apply Hk. exists w. reflexivity.
Qed.

Lemma run_inventory_bound (ks : list call) (g : world) :
  (length (inventory (self g)) <= MAX_WEAPONS)%nat ->
  (length (inventory (self (run ks g))) <= MAX_WEAPONS)%nat.
Proof.
  revert g. induction ks as [| k ks IH]; intros g Hle; simpl.
  - exact Hle.
  - apply IH, step_inventory_bound, Hle.
Qed.

Lemma step_animations (k : call) (g : world) :
  animations (self (step k g)) = animations (self g).
Proof.
  destruct (decide (exists w, k = call_PickupWeapon w)) as [[w ->] | Hk].
  - simpl. apply PickupWeapon_animations.
  - destruct (step_equipment k g) as (_ & _ & ->); [| reflexivity].
    intros w ->. apply Hk. exists w. reflexivity.
Qed.

Lemma run_animations (ks : list call) (g : world) :
  animations (self (run ks g)) = animations (self g).
Proof.
  revert g. induction ks as [| k ks IH]; intros g; simpl; [reflexivity |].
  rewrite IH. apply step_animations.
Qed.

(** C4.  [PickupWeapon] reports success exactly when fewer than three
    weapons are held; a success appends the weapon, a failure changes
    nothing.  A fresh character therefore takes three weapons and refuses
    the fourth, and no sequence of calls makes it hold more than three. *)
Theorem PickupWeapon_iff_room :
  (forall w c, fst (PickupWeapon w c) = true <-> (length (inventory c) < 3)%nat) /\
  (forall w c, fst (PickupWeapon w c) = true ->
               inventory (snd (PickupWeapon w c)) = inventory c ++ [w]) /\
  (forall w c, fst (PickupWeapon w c) = false -> snd (PickupWeapon w c) = c) /\
  (forall startPos w1 w2 w3 w4,
      let r1 := PickupWeapon w1 (new startPos) in
      let r2 := PickupWeapon w2 (snd r1) in
      let r3 := PickupWeapon w3 (snd r2) in
      let r4 := PickupWeapon w4 (snd r3) in
      [fst r1; fst r2; fst r3; fst r4] = [true; true; true; false] /\
      inventory (snd r4) = [w1; w2; w3]) /\
  (forall ks startPos ws,
      (length (inventory (self (run ks (mk_world (new startPos) ws)))) <= 3)%nat).
Proof.
  assert (Hiff : forall w c,
             fst (PickupWeapon w c) = true <-> (length (inventory c) < 3)%nat).
  { intros w c. unfold PickupWeapon, MAX_WEAPONS.
    destruct (length (inventory c) <? 3)%nat eqn:Hlt; simpl.
    - apply Nat.ltb_lt in Hlt. tauto.
    - apply Nat.ltb_ge in Hlt. split; [discriminate | lia]. }
  split; [exact Hiff |]. split; [| split; [| split]].
  - intros w c Hok. apply Hiff in Hok.
    rewrite PickupWeapon_room by exact Hok. simpl.
    destruct (currentWeapon c); reflexivity.
  - intros w c Hfail. rewrite PickupWeapon_full; [reflexivity |].
    destruct (Nat.lt_ge_cases (length (inventory c)) MAX_WEAPONS) as [Hlt | Hge];
      [| exact Hge].
    unfold MAX_WEAPONS in Hlt. apply (Hiff w c) in Hlt. congruence.
  - intros startPos w1 w2 w3 w4.
    destruct w1, w2, w3; split; reflexivity.
  - intros ks startPos ws. apply run_inventory_bound. simpl. unfold MAX_WEAPONS. lia.
Qed.

(** *** Animation selection *)

(** C1.  [DetermineAnimation] always answers with one of the six clip
    names, and picks it by first match in the order reload, shoot, crouch,
    run, walk, idle: each flag wins over everything below it, "walk" needs
    the length of the velocity to exceed 0.1 strictly, and "idle" is what
    remains. *)
Theorem DetermineAnimation_first_match (c : t) :
  DetermineAnimation c = first_match (priority_list c) "idle" /\
  In (DetermineAnimation c) clip_names /\
  (isReloading (animState c) = true -> DetermineAnimation c = "reload") /\
  (isReloading (animState c) = false -> isShooting (animState c) = true ->
   DetermineAnimation c = "shoot") /\
  (isReloading (animState c) = false -> isShooting (animState c) = false ->
   isCrouching (animState c) = true -> DetermineAnimation c = "crouch") /\
  (isReloading (animState c) = false -> isShooting (animState c) = false ->
   isCrouching (animState c) = false -> isRunning (animState c) = true ->
   DetermineAnimation c = "run") /\
  (isReloading (animState c) = false -> isShooting (animState c) = false ->
   isCrouching (animState c) = false -> isRunning (animState c) = false ->
   (F32.gtb (glm.length (velocity c)) F32.lit_0_1 = true ->
    DetermineAnimation c = "walk") /\
   (F32.gtb (glm.length (velocity c)) F32.lit_0_1 = false ->
    DetermineAnimation c = "idle")).
Proof.
  unfold DetermineAnimation, priority_list, clip_names. cbn [first_match].
  destruct (isReloading (animState c)), (isShooting (animState c)),
    (isCrouching (animState c)), (isRunning (animState c)),
    (F32.gtb (glm.length (velocity c)) F32.lit_0_1);
    repeat split; intros; first [reflexivity | discriminate | (simpl; tauto)].
Qed.

(** *** Sprinting *)

(** C6.  While the character crouches or aims, [StartSprint] does nothing
    at all: the whole state is as before, so a character that was not
    running is still not running. *)
Theorem StartSprint_blocked (c : t)
    (Hbusy : isCrouching (animState c) = true \/ isAiming (animState c) = true) :
  StartSprint c = c /\
  (isRunning (animState c) = false -> isRunning (animState (StartSprint c)) = false).
Proof.
  assert (Hsame : StartSprint c = c).
  { unfold StartSprint. destruct Hbusy as [-> | ->]; [reflexivity |].
    rewrite andb_false_r. reflexivity. }
  split; [exact Hsame |]. rewrite Hsame. trivial.
Qed.

(** The other direction: when neither flag is up the sprint starts. *)
Lemma StartSprint_starts (c : t) :
  isCrouching (animState c) = false -> isAiming (animState c) = false ->
  isRunning (animState (StartSprint c)) = true.
Proof.
  intros Hc Ha. unfold StartSprint. rewrite Hc, Ha. simpl.
  rewrite UpdateAnimation_animState. reflexivity.
Qed.

(** *** The equipped weapon *)

Lemma PickupWeapon_keeps_equipped (w : weapon_ptr) (c : t) (p : addr) :
  currentWeapon c = Some p -> currentWeapon (snd (PickupWeapon w c)) = Some p.
Proof.
  intros Hp. unfold PickupWeapon. destruct (_ <? _)%nat; [| exact Hp].
  simpl. rewrite Hp. exact Hp.
Qed.

Lemma step_keeps_equipped (k : call) (g : world) (p : addr) :
  currentWeapon (self g) = Some p -> currentWeapon (self (step k g)) = Some p.
Proof.
  intros Hp. destruct (decide (exists w, k = call_PickupWeapon w)) as [[w ->] | Hk].
  - simpl. apply PickupWeapon_keeps_equipped, Hp.
  - destruct (step_equipment k g) as (-> & _ & _); [| exact Hp].
    intros w ->. apply Hk. exists w. reflexivity.
Qed.

Lemma run_keeps_equipped (ks : list call) (g : world) (p : addr) :
  currentWeapon (self g) = Some p -> currentWeapon (self (run ks g)) = Some p.
Proof.
  revert g. induction ks as [| k ks IH]; intros g Hp; simpl; [exact Hp |].
  apply IH, step_keeps_equipped, Hp.
Qed.

(** C5, as the code has it.  The first successful pickup of an actual
    weapon by a character with nothing equipped equips that weapon, and
    from then on it stays equipped whatever is called, further pickups
    included, whether they succeed or not. *)
Theorem PickupWeapon_equips_first (c : t) (p : addr)
    (Hnone : currentWeapon c = None)
    (Hok : fst (PickupWeapon (Some p) c) = true) :
  currentWeapon (snd (PickupWeapon (Some p) c)) = Some p /\
  (forall w c', currentWeapon c' = Some p ->
                currentWeapon (snd (PickupWeapon w c')) = Some p) /\
  (forall ks ws,
      currentWeapon (self (run ks (mk_world (snd (PickupWeapon (Some p) c)) ws)))
      = Some p).
Proof.
  assert (Heq : currentWeapon (snd (PickupWeapon (Some p) c)) = Some p).
  { unfold PickupWeapon in *. destruct (_ <? _)%nat; [| discriminate Hok].
    simpl. rewrite Hnone. reflexivity. }
  split; [exact Heq |]. split.
  - intros w c'. apply PickupWeapon_keeps_equipped.
  - intros ks ws. apply run_keeps_equipped. exact Heq.
Qed.

Lemma PickupWeapon_invariant (w : weapon_ptr) (c : t) :
  equipped_in_inventory c -> equipped_in_inventory (snd (PickupWeapon w c)).
Proof.
  intros Hinv q. unfold PickupWeapon. destruct (_ <? _)%nat; [| apply Hinv].
  simpl. destruct (currentWeapon c) as [p |] eqn:Hp; simpl.
  - intros Hq. apply in_or_app. left. apply Hinv. exact Hq.
  - intros ->. apply in_or_app. right. left. reflexivity.
Qed.

Lemma step_invariant (k : call) (g : world) :
  equipped_in_inventory (self g) -> equipped_in_inventory (self (step k g)).
Proof.
  intros Hinv. destruct (decide (exists w, k = call_PickupWeapon w)) as [[w ->] | Hk].
  - simpl. apply PickupWeapon_invariant, Hinv.
  - destruct (step_equipment k g) as (Hw & Hi & _).
    { intros w ->. apply Hk. exists w. reflexivity. }
    intros q. rewrite Hw, Hi. apply Hinv.
Qed.

Lemma new_invariant (startPos : glm.vec3) : equipped_in_inventory (new startPos).
Proof. intros q Hq. discriminate Hq. Qed.

(** C10.  Every call keeps the equipped weapon inside the inventory: if a
    world satisfies this before a sequence of calls, it does after it.  A
    fresh character satisfies it, and the only call that can change the
    equipped weapon is a [PickupWeapon] that has just appended that very
    weapon. *)
Theorem equipped_weapon_is_held (ks : list call) (g : world)
    (Hinv : equipped_in_inventory (self g)) :
  equipped_in_inventory (self (run ks g)) /\
  (forall startPos, equipped_in_inventory (new startPos)) /\
  (forall k, currentWeapon (self (step k g)) <> currentWeapon (self g) ->
             exists w, k = call_PickupWeapon w /\
                       currentWeapon (self (step k g)) = w /\
                       inventory (self (step k g)) = inventory (self g) ++ [w]).
Proof.
  split; [| split; [exact new_invariant |]].
  - revert g Hinv. induction ks as [| k ks IH]; intros g Hinv; simpl; [exact Hinv |].
    apply IH, step_invariant, Hinv.
  - intros k Hchg.
    destruct (decide (exists w, k = call_PickupWeapon w)) as [[w ->] | Hk].
    + exists w. split; [reflexivity |]. simpl in Hchg |- *.
      unfold PickupWeapon in *.
      destruct (_ <? _)%nat; simpl in *; [| congruence].
      destruct (currentWeapon (self g)) as [q |] eqn:Hq; simpl in *;
        [congruence | split; reflexivity].
    + destruct (step_equipment k g) as (Hw & _ & _).
      { intros w ->. apply Hk. exists w. reflexivity. }
      contradiction.
Qed.

(** *** The weapons behind the references *)

Lemma Reload_weapon (g : world) (p : addr) :
  Weapon.never_refills (weapons g p) (weapons (Reload g) p).
Proof.
  unfold Reload. destruct (currentWeapon (self g)) as [q |];
    [| apply WeaponSpec.never_refills_refl].
  destruct (negb (isReloading (animState (self g))));
    [| apply WeaponSpec.never_refills_refl].
  cbn [weapons]. destruct (decide (q = p)) as [-> | Hne].
  - rewrite fn_lookup_alter. apply WeaponSpec.StartReload_never_refills.
  - rewrite fn_lookup_alter_ne by exact Hne. apply WeaponSpec.never_refills_refl.
Qed.

Lemma Shoot_weapon (g : world) (p : addr) :
  Weapon.never_refills (weapons g p) (weapons (Shoot g) p).
Proof.
  unfold Shoot. destruct (currentWeapon (self g)) as [q |] eqn:Hq;
    [| apply WeaponSpec.never_refills_refl].
  destruct (negb (isReloading (animState (self g))));
    [| apply WeaponSpec.never_refills_refl].
  destruct (Weapon.CanShoot (weapons g q)).
  - cbn [weapons]. destruct (decide (q = p)) as [-> | Hne].
    + rewrite fn_lookup_alter. apply WeaponSpec.Shoot_never_refills.
    + rewrite fn_lookup_alter_ne by exact Hne. apply WeaponSpec.never_refills_refl.
  - destruct (Weapon.NeedsReload (weapons g q));
      [apply Reload_weapon | apply WeaponSpec.never_refills_refl].
Qed.

Lemma step_weapon (k : call) (g : world) (p : addr) :
  Weapon.never_refills (weapons g p) (weapons (step k g) p).
Proof.
  destruct k as [| | | | | | | | | q | q]; cbn [step on_self on_weapon weapons];
    try apply WeaponSpec.never_refills_refl;
    try apply Shoot_weapon; try apply Reload_weapon.
  - destruct (decide (q = p)) as [-> | Hne].
    + rewrite fn_lookup_alter. apply WeaponSpec.Shoot_never_refills.
    + rewrite fn_lookup_alter_ne by exact Hne. apply WeaponSpec.never_refills_refl.
  - destruct (decide (q = p)) as [-> | Hne].
    + rewrite fn_lookup_alter. apply WeaponSpec.StartReload_never_refills.
    + rewrite fn_lookup_alter_ne by exact Hne. apply WeaponSpec.never_refills_refl.
Qed.

Lemma run_weapon (ks : list call) (g : world) (p : addr) :
  Weapon.never_refills (weapons g p) (weapons (run ks g) p).
Proof.
  revert g. induction ks as [| k ks IH]; intros g; simpl.
  - apply WeaponSpec.never_refills_refl.
  - eapply WeaponSpec.never_refills_trans; [apply step_weapon | apply IH].
Qed.

(** C9.  Nothing finishes a reload.  After [StartReload] has raised a
    weapon's flag, whatever is called afterwards on the character or on
    any weapon, the flag is still up and the weapon has the rounds it had.
    In general no call ever adds a round to any weapon, so an empty weapon
    stays empty. *)
Theorem reload_never_completes (ks : list call) (g : world) (p : addr) :
  (Weapon.isReloading
     (weapons (run ks (step (call_Weapon_StartReload p) g)) p) = true /\
   Weapon.currentAmmo (Weapon.stats (weapons (run ks (step (call_Weapon_StartReload p) g)) p))
   = Weapon.currentAmmo (Weapon.stats (weapons g p))) /\
  (Weapon.isReloading (weapons g p) = true ->
   Weapon.isReloading (weapons (run ks g) p) = true /\
   Weapon.currentAmmo (Weapon.stats (weapons (run ks g) p)) = Weapon.currentAmmo (Weapon.stats (weapons g p))) /\
  Weapon.currentAmmo (Weapon.stats (weapons (run ks g) p)) <= Weapon.currentAmmo (Weapon.stats (weapons g p)) /\
  (Weapon.currentAmmo (Weapon.stats (weapons g p)) = 0 -> Weapon.currentAmmo (Weapon.stats (weapons (run ks g) p)) = 0).
Proof.
  destruct (run_weapon ks g p) as (Hle & Hfrozen & Hzero).
  split; [| split; [| split]]; [| | exact Hle | exact Hzero].
  - set (g1 := step (call_Weapon_StartReload p) g).
    assert (Hflag : Weapon.isReloading (weapons g1 p) = true).
    { subst g1. cbn [step on_weapon weapons]. rewrite fn_lookup_alter.
      apply WeaponSpec.StartReload_isReloading. }
    assert (Hsame : Weapon.currentAmmo (Weapon.stats (weapons g1 p)) = Weapon.currentAmmo (Weapon.stats (weapons g p))).
    { subst g1. cbn [step on_weapon weapons]. rewrite fn_lookup_alter.
      rewrite WeaponSpec.StartReload_stats. reflexivity. }
    destruct (run_weapon ks g1 p) as (_ & Hfrozen1 & _).
    rewrite (Hfrozen1 Hflag). split; [exact Hflag | exact Hsame].
  - intros Hflag. rewrite (Hfrozen Hflag). split; [exact Hflag | reflexivity].
Qed.

(** *** Shooting an empty weapon *)

Lemma LoadAnimations_reload (m : gmap string Animation) :
  LoadAnimations m !! "reload" = Some (Animation_new "reload.anim").
Proof. unfold LoadAnimations. apply lookup_insert_eq. Qed.

Lemma LoadAnimations_shoot (m : gmap string Animation) :
  LoadAnimations m !! "shoot" = Some (Animation_new "shoot.anim").
Proof.
  unfold LoadAnimations. rewrite lookup_insert_ne by discriminate.
  apply lookup_insert_eq.
Qed.

(** Every character that can arise still has the clip library its
    constructor loaded. *)
Lemma reachable_animations (g : world) :
  reachable g -> animations (self g) = LoadAnimations ∅.
Proof. intros (ks & startPos & ws & ->). rewrite run_animations. reflexivity. Qed.

(** C2.  With an empty weapon equipped and the character not reloading,
    [Shoot] is [Reload]: no round is fired (the weapon still has none and
    the shooting flag is as before), the character and the weapon are both
    reloading afterwards, and the clip playing is "reload". *)
Theorem Shoot_empty_reloads (g : world) (p : addr)
    (Hreachable : reachable g)
    (Hequipped : currentWeapon (self g) = Some p)
    (Hempty : Weapon.currentAmmo (Weapon.stats (weapons g p)) = 0)
    (Hidle : isReloading (animState (self g)) = false) :
  Shoot g = Reload g /\
  Weapon.currentAmmo (Weapon.stats (weapons (Shoot g) p)) = 0 /\
  isReloading (animState (self (Shoot g))) = true /\
  isShooting (animState (self (Shoot g))) = isShooting (animState (self g)) /\
  Weapon.isReloading (weapons (Shoot g) p) = true /\
  currentAnimation (self (Shoot g))
  = Some (Animation_Play (Animation_new "reload.anim")).
Proof.
  assert (Hredirect : Shoot g = Reload g).
  { unfold Shoot. rewrite Hequipped, Hidle. simpl.
    unfold Weapon.CanShoot, Weapon.NeedsReload. rewrite Hempty. simpl.
    rewrite andb_false_r. reflexivity. }
  split; [exact Hredirect |]. rewrite Hredirect.
  unfold Reload. rewrite Hequipped, Hidle. cbn [negb weapons self].
  rewrite fn_lookup_alter, WeaponSpec.StartReload_isReloading,
    WeaponSpec.StartReload_stats, PlayAnimation_animState.
  unfold PlayAnimation. cbn [animations set_animState].
  rewrite (reachable_animations g Hreachable), LoadAnimations_reload.
  repeat split. exact Hempty.
Qed.

(** *** Turning *)

Lemma Rotate_yaw (yawDelta deltaTime : F32.float) (c : t) :
  glm.y (rotation (Rotate yawDelta deltaTime c))
  = F32.fmod (incremented_yaw c yawDelta deltaTime) F32.lit_360.
Proof. reflexivity. Qed.

(** C8, as the code has it.  [Rotate] adds [yawDelta * rotationSpeed *
    deltaTime] to the yaw and keeps the floating remainder modulo 360 of
    the sum.  Whenever that sum is a finite number that is not negative
    the new yaw lies in [0, 360).  With [rotationSpeed] 180, [Rotate(90,
    1.0)] adds 16200 degrees, 45 full turns, so a yaw of 0 is 0 again. *)
Theorem Rotate_wraps_nonnegative (c : t) (yawDelta deltaTime : F32.float)
    (Hvalid : F32.valid (incremented_yaw c yawDelta deltaTime) = true)
    (Hfinite : F32.is_finite (incremented_yaw c yawDelta deltaTime) = true)
    (Hnonneg : F32.leb F32.zero (incremented_yaw c yawDelta deltaTime) = true) :
  glm.y (rotation (Rotate yawDelta deltaTime c))
  = F32.fmod (F32.add (glm.y (rotation c))
                      (F32.mul (F32.mul yawDelta (rotationSpeed (stats c))) deltaTime))
             F32.lit_360 /\
  F32.leb F32.zero (glm.y (rotation (Rotate yawDelta deltaTime c))) = true /\
  F32.ltb (glm.y (rotation (Rotate yawDelta deltaTime c))) F32.lit_360 = true /\
  (rotationSpeed (stats c) = F32.lit_180 ->
   F32.mul (F32.mul (F32.of_Z2 90 0) (rotationSpeed (stats c))) F32.one
   = F32.of_Z2 16200 0 /\
   (glm.y (rotation c) = F32.zero ->
    glm.y (rotation (Rotate (F32.of_Z2 90 0) F32.one c)) = F32.zero)).
Proof.
  split; [reflexivity |].
  rewrite Rotate_yaw.
  destruct (F32Spec.fmod_360_range _ Hvalid Hfinite Hnonneg) as [Hlo Hhi].
  split; [exact Hlo |]. split; [exact Hhi |].
  intros Hspeed. rewrite Hspeed. split; [vm_compute; reflexivity |].
  intros Hyaw. rewrite Rotate_yaw. unfold incremented_yaw.
  rewrite Hspeed, Hyaw. vm_compute. reflexivity.
Qed.

End WithEngine.

(** *** The properties at work on the plain engine *)

Lemma StartSprint_blocked_witness :
  isCrouching (animState (ToggleCrouch fresh)) = true /\
  StartSprint (ToggleCrouch fresh) = ToggleCrouch fresh /\
  isRunning (animState (StartSprint (ToggleCrouch fresh))) = false.
Proof.
  split; [reflexivity |].
  destruct (StartSprint_blocked (ToggleCrouch fresh) (or_introl eq_refl))
    as [Hsame Hstill].
  split; [exact Hsame | exact (Hstill eq_refl)].
Defined.

Lemma PickupWeapon_equips_first_witness :
  currentWeapon fresh = None /\
  fst (PickupWeapon (Some 0%nat) fresh) = true /\
  currentWeapon (snd (PickupWeapon (Some 0%nat) fresh)) = Some 0%nat /\
  currentWeapon
    (self (run [call_PickupWeapon (Some 1%nat); call_PickupWeapon None;
                call_PickupWeapon (Some 2%nat)]
               (mk_world (snd (PickupWeapon (Some 0%nat) fresh)) armoury)))
  = Some 0%nat.
Proof.
  split; [reflexivity |]. split; [reflexivity |].
  destruct (PickupWeapon_equips_first fresh 0%nat eq_refl eq_refl)
    as (Hfirst & _ & Hlater).
  split; [exact Hfirst | apply Hlater].
Defined.

(** C5 as stated fails when the first weapon picked up is a null
    reference: the pickup succeeds and equips nothing, so the next pickup
    changes the equipped weapon. *)
Lemma PickupWeapon_null_counterexample :
  currentWeapon fresh = None /\
  fst (PickupWeapon None fresh) = true /\
  currentWeapon (snd (PickupWeapon None fresh)) = None /\
  currentWeapon (snd (PickupWeapon (Some 0%nat) (snd (PickupWeapon None fresh))))
  <> currentWeapon (snd (PickupWeapon None fresh)).
Proof. repeat split. discriminate. Qed.

Lemma equipped_weapon_is_held_witness :
  equipped_in_inventory (self spent) /\
  equipped_in_inventory
    (self (run [call_Shoot; call_PickupWeapon (Some 1%nat); call_ToggleCrouch] spent)).
Proof.
  assert (Hinv : equipped_in_inventory (self spent)).
  { intros q Hq. left. exact Hq. }
  split; [exact Hinv |].
  apply (equipped_weapon_is_held
           [call_Shoot; call_PickupWeapon (Some 1%nat); call_ToggleCrouch] spent Hinv).
Defined.

Lemma Shoot_empty_reloads_witness :
  (reachable spent /\
   currentWeapon (self spent) = Some 0%nat /\
   Weapon.currentAmmo (Weapon.stats (weapons spent 0%nat)) = 0 /\
   isReloading (animState (self spent)) = false /\
   currentAnimation (self spent) = Some "shoot.anim"%string) /\
  (Weapon.currentAmmo (Weapon.stats (weapons (Shoot spent) 0%nat)) = 0 /\
   isReloading (animState (self (Shoot spent))) = true /\
   currentAnimation (self (Shoot spent)) = Some "reload.anim"%string).
Proof.
  assert (Hreachable : reachable spent).
  { exists [call_PickupWeapon (Some 0%nat); call_Shoot], origin, armoury.
    reflexivity. }
  split; [split; [exact Hreachable | repeat split] |].
  destruct (Shoot_empty_reloads spent 0%nat Hreachable eq_refl eq_refl eq_refl)
    as (_ & Hammo & Hflag & _ & _ & Hclip).
  split; [exact Hammo |]. split; [exact Hflag | exact Hclip].
Defined.

Lemma Rotate_wraps_nonnegative_witness :
  (F32.valid (incremented_yaw fresh (F32.of_Z2 3 0) F32.one) = true /\
   F32.is_finite (incremented_yaw fresh (F32.of_Z2 3 0) F32.one) = true /\
   F32.leb F32.zero (incremented_yaw fresh (F32.of_Z2 3 0) F32.one) = true) /\
  F32.ltb (glm.y (rotation (Rotate (F32.of_Z2 3 0) F32.one fresh))) F32.lit_360 = true /\
  glm.y (rotation (Rotate (F32.of_Z2 90 0) F32.one fresh)) = F32.zero.
Proof.
  split; [repeat split |].
  destruct (Rotate_wraps_nonnegative fresh (F32.of_Z2 3 0) F32.one
              eq_refl eq_refl eq_refl)
    as (_ & _ & Hhi & Hturns).
  split; [exact Hhi |].
  destruct (Hturns eq_refl) as [_ Hzero]. exact (Hzero eq_refl).
Defined.

(** C8 as stated fails twice on a fresh character, whose yaw is 0 and
    whose [rotationSpeed] is 180: [Rotate(90, 1.0)] leaves the yaw at 0,
    where a turn by 180 degrees would make it 180, and [Rotate(-0.5, 1.0)]
    leaves it at -90, below the interval. *)
Lemma Rotate_90_counterexample :
  rotationSpeed (stats fresh) = F32.lit_180 /\
  glm.y (rotation fresh) = F32.zero /\
  glm.y (rotation (Rotate (F32.of_Z2 90 0) F32.one fresh)) = F32.zero /\
  F32.fmod (F32.add (glm.y (rotation fresh)) F32.lit_180) F32.lit_360 = F32.lit_180 /\
  glm.y (rotation (Rotate (F32.of_Z2 90 0) F32.one fresh)) <> F32.lit_180 /\
  glm.y (rotation (Rotate (F32.of_Z2 (-1) (-1)) F32.one fresh)) = F32.of_Z2 (-90) 0 /\
  F32.leb F32.zero (glm.y (rotation (Rotate (F32.of_Z2 (-1) (-1)) F32.one fresh)))
  = false.
Proof. vm_compute. repeat split. discriminate. Qed.

End CharacterSpec.

(** * Further properties of the weapon *)
Module WeaponLaws.

Import Weapon.








(** X1.  A weapon that is not reloading and holds [n] rounds holds
    [max 0 (n - k)] rounds after [k] calls of [Shoot]: each call takes one
    round until none is left, and the calls after that take nothing. *)
Theorem Shoot_k_times (w : Weapon.t) (k : nat)
    (Hint : is_int (currentAmmo (stats w)))
    (Hloaded : 0 <= currentAmmo (stats w))
    (Hready : isReloading w = false) :
  currentAmmo (stats (Nat.iter k Shoot w))
  = Z.max 0 (currentAmmo (stats w) - Z.of_nat k) /\
  isReloading (Nat.iter k Shoot w) = false.
Proof.
  induction k as [| k [IHa IHr]].
  - simpl. split; [lia | exact Hready].
  - change (Nat.iter (S k) Shoot w) with (Shoot (Nat.iter k Shoot w)).
    split; [| rewrite WeaponSpec.Shoot_isReloading; exact IHr].
    set (v := Nat.iter k Shoot w) in *.
    destruct (CanShoot v) eqn:Hc.
    + rewrite WeaponSpec.Shoot_fires by exact Hc.
      apply WeaponSpec.CanShoot_spec in Hc as [_ Hpos].
      rewrite int_wrap_id; [lia |]. unfold is_int, INT_MIN, INT_MAX in *. lia.
    + rewrite WeaponSpec.Shoot_idle by exact Hc.
      apply WeaponSpec.CanShoot_false in Hc as [Hr | Hz]; [congruence | lia].
Qed.

Lemma Shoot_k_times_witness :
  (is_int (currentAmmo (stats (pistol 2))) /\
   0 <= currentAmmo (stats (pistol 2)) /\
   isReloading (pistol 2) = false) /\
  currentAmmo (stats (Nat.iter 5 Shoot (pistol 2))) = 0.
Proof.
  assert (Hint : is_int (currentAmmo (stats (pistol 2)))) by (split; discriminate).
  assert (Hloaded : 0 <= currentAmmo (stats (pistol 2))) by discriminate.
  split; [split; [exact Hint | split; [exact Hloaded | reflexivity]] |].
  destruct (Shoot_k_times (pistol 2) 5 Hint Hloaded eq_refl) as [Hammo _].
  exact Hammo.
Defined.

End WeaponLaws.

(** * Further properties of the remainder *)
Module F32Laws.

(** Rounding a magnitude that already fits is exact, whatever the sign. *)
Lemma binary_round_fits_signed (s : bool) (r : positive) (e : Z) :
  Z.pos r < 2 ^ 24 -> -149 <= e <= 104 ->
  exists (m : positive) (f : Z),
    binary_round F32.prec F32.emax s r e = S754_finite s m f /\
    f <= e /\ Z.pos m = Z.pos r * 2 ^ (e - f).
Proof.
  intros Hr He.
  pose proof (F32Spec.digits2_pos_le r 24 ltac:(lia) Hr) as Hd.
  unfold F32.prec, F32.emax, binary_round.
  set (d := digits2_pos r) in *.
  set (f := fexp 24 128 (Z.pos d + e)).
  assert (Hf : f <= e /\ -149 <= f) by (subst f; unfold fexp, emin; lia).
  assert (Hal : exists m, shl_align r e f = (m, f) /\ Z.pos m = Z.pos r * 2 ^ (e - f)
                          /\ Z.pos (digits2_pos m) = Z.pos d + (e - f)).
  { unfold shl_align. destruct (f - e) as [| q | q] eqn:Hq; try lia.
    - exists r. assert (Hfe : e = f) by lia.
      replace (e - f) with 0 by lia. fold d.
      split; [f_equal; exact Hfe | split; lia].
    - exists (Pos.iter xO r q).
      rewrite F32Spec.iter_xO_value, F32Spec.iter_xO_digits.
      replace (e - f) with (Z.pos q) by lia. repeat split; fold d; lia. }
  destruct Hal as (m & -> & Hm & Hdm).
  exists m, f. split; [| split; [lia | exact Hm]].
  unfold binary_round_aux, shr_fexp. cbn [Zdigits2].
  rewrite Hdm. replace (Z.pos d + (e - f) + f) with (Z.pos d + e) by lia.
  fold f. rewrite Z.sub_diag.
  cbn [shr shr_record_of_loc loc_of_shr_record shr_m round_nearest_even Zdigits2].
  rewrite Hdm. replace (Z.pos d + (e - f) + f) with (Z.pos d + e) by lia.
  fold f. rewrite Z.sub_diag. cbn [shr shr_record_of_loc shr_m].
  replace (f <=? 128 - 24) with true by (symmetry; apply Z.leb_le; lia).
  reflexivity.
Qed.

(** The remainder modulo 360 of any finite float is strictly between -360
    and 360 and is on the side of zero the float is on. *)
Lemma fmod_360_magnitude (s : F32.float) :
  F32.valid s = true -> F32.is_finite s = true ->
  F32.ltb (F32.of_Z2 (-360) 0) (F32.fmod s F32.lit_360) = true /\
  F32.ltb (F32.fmod s F32.lit_360) F32.lit_360 = true /\
  (F32.leb F32.zero s = true -> F32.leb F32.zero (F32.fmod s F32.lit_360) = true) /\
  (F32.leb s F32.zero = true -> F32.leb (F32.fmod s F32.lit_360) F32.zero = true).
Proof.
  rewrite F32Spec.lit_360_eq.
  change (F32.of_Z2 (-360) 0) with (S754_finite true 11796480 (-15)).
  intros Hvalid Hfin.
  destruct s as [sz | si | | sx mx ex]; try discriminate Hfin.
  - destruct sz; repeat split.
  - apply F32Spec.valid_finite in Hvalid as [Hm He].
    unfold F32.fmod.
    set (e := Z.min ex (-15)).
    set (X := Z.pos mx * 2 ^ (ex - e)).
    set (Y := 11796480 * 2 ^ (-15 - e)).
    assert (HY : 0 < Y)
      by (subst Y; apply Z.mul_pos_pos; [lia | apply Z.pow_pos_nonneg; lia]).
    assert (HX : 0 <= X)
      by (subst X; apply Z.mul_nonneg_nonneg; [lia | apply Z.pow_nonneg; lia]).
    pose proof (Z.mod_pos_bound X Y HY) as HR.
    assert (HR24 : X mod Y < 2 ^ 24).
    { destruct (Z_le_gt_dec (-15) ex) as [Hge | Hlt].
      - assert (HYv : Y = 11796480) by (subst Y e; rewrite Z.min_r by lia; reflexivity).
        lia.
      - assert (HXv : X = Z.pos mx)
          by (subst X e; rewrite Z.min_l by lia; rewrite Z.sub_diag; lia).
        pose proof (Z.mod_le X Y HX HY). lia. }
    destruct (X mod Y) as [| r | r] eqn:Hmod; [| | lia].
    + destruct sx; repeat split; intros H; discriminate H.
    + assert (Hround : binary_normalize F32.prec F32.emax (cond_Zopp sx (Z.pos r)) e sx
                       = binary_round F32.prec F32.emax sx r e)
        by (destruct sx; reflexivity).
      rewrite Hround.
      destruct (binary_round_fits_signed sx r e HR24 ltac:(subst e; lia))
        as (m & f & -> & Hfe & Hmv).
      assert (Hbelow : f < -15 \/ (f = -15 /\ (m < 11796480)%positive)).
      { destruct (Z_lt_le_dec f (-15)) as [Hlt | Hge]; [left; exact Hlt | right].
        assert (Hf15 : f = -15) by (subst e; lia).
        assert (He15 : e = -15) by (subst e; lia).
        assert (Hm0 : Z.pos m = Z.pos r) by (rewrite Hmv, He15, Hf15; simpl; lia).
        assert (HYv : Y = 11796480) by (subst Y; rewrite He15; reflexivity).
        split; [exact Hf15 | lia]. }
      unfold F32.ltb, F32.leb, SFltb, SFleb, SFcompare.
      destruct sx.
      * split; [| repeat split; intros H; discriminate H].
        destruct Hbelow as [Hlt | [-> Hlt]].
        -- rewrite (proj2 (Z.compare_gt_iff (-15) f)) by lia. reflexivity.
        -- rewrite Z.compare_refl.
           change (Pos.compare_cont Eq 11796480 m) with (11796480 ?= m)%positive.
           rewrite (proj2 (Pos.compare_gt_iff 11796480 m)) by exact Hlt. reflexivity.
      * split; [reflexivity |]. split; [| repeat split; intros H; discriminate H].
        destruct Hbelow as [Hlt | [-> Hlt]].
        -- rewrite (proj2 (Z.compare_lt_iff f (-15))) by lia. reflexivity.
        -- rewrite Z.compare_refl.
           change (Pos.compare_cont Eq m 11796480) with (m ?= 11796480)%positive.
           rewrite (proj2 (Pos.compare_lt_iff m 11796480)) by exact Hlt. reflexivity.
Qed.

Lemma fmod_not_finite (s y : F32.float) :
  F32.is_finite s = false -> F32.fmod s y = S754_nan.
Proof. destruct s, y; intros Hs; try discriminate Hs; reflexivity. Qed.

Lemma add_nan_r (a : F32.float) : F32.add a S754_nan = S754_nan.
Proof. destruct a; reflexivity. Qed.

End F32Laws.

(** * Further properties of the character *)
Module CharacterLaws.

Import MilitaryCharacter.

Section WithEngine.

Context {engine : Engine}.

(** *** The clip library *)

Lemma library_has (name : string) :
  In name clip_names ->
  LoadAnimations ∅ !! name = Some (Animation_new (String.append name ".anim")).
Proof.
  unfold clip_names, LoadAnimations. simpl.
  intros [<- | [<- | [<- | [<- | [<- | [<- | []]]]]]];
    repeat (rewrite lookup_insert_ne by discriminate);
    apply lookup_insert_eq.
Qed.

Lemma library_lacks (name : string) :
  ~ In name clip_names -> LoadAnimations ∅ !! name = None.
Proof.
  unfold clip_names, LoadAnimations. simpl. intros Hout.
  repeat (rewrite lookup_insert_ne by (intros <-; apply Hout; tauto)).
  apply lookup_empty.
Qed.

Lemma DetermineAnimation_in_library (c : t) : In (DetermineAnimation c) clip_names.
Proof.
  unfold DetermineAnimation, clip_names.
  destruct (isReloading (animState c)), (isShooting (animState c)),
    (isCrouching (animState c)), (isRunning (animState c)),
    (F32.gtb (glm.length (velocity c)) F32.lit_0_1); simpl; tauto.
Qed.

(** The clip chosen depends on the flags and the velocity only. *)
Lemma DetermineAnimation_ext (c c' : t) :
  animState c' = animState c -> velocity c' = velocity c ->
  DetermineAnimation c' = DetermineAnimation c.
Proof. unfold DetermineAnimation. intros -> ->. reflexivity. Qed.

Lemma PlayAnimation_velocity (name : string) (c : t) :
  velocity (PlayAnimation name c) = velocity c.
Proof. unfold PlayAnimation. destruct (animations c !! name); reflexivity. Qed.

Lemma DetermineAnimation_PlayAnimation (name : string) (c : t) :
  DetermineAnimation (PlayAnimation name c) = DetermineAnimation c.
Proof.
  apply DetermineAnimation_ext;
    [apply CharacterSpec.PlayAnimation_animState | apply PlayAnimation_velocity].
Qed.

Lemma PlayAnimation_twice (name : string) (c : t) :
  PlayAnimation name (PlayAnimation name c) = PlayAnimation name c.
Proof.
  unfold PlayAnimation. destruct (animations c !! name) as [clip |] eqn:Hclip.
  - simpl. rewrite Hclip. reflexivity.
  - rewrite Hclip. reflexivity.
Qed.

Lemma PlayAnimation_loaded (name : string) (c : t) :
  animations c = LoadAnimations ∅ -> In name clip_names ->
  PlayAnimation name c = set_currentAnimation c (Some (clip_of name)).
Proof.
  intros Hlib Hin. unfold PlayAnimation. rewrite Hlib, (library_has name Hin).
  reflexivity.
Qed.

Lemma UpdateAnimation_loaded (c : t) :
  animations c = LoadAnimations ∅ ->
  UpdateAnimation c = set_currentAnimation c (Some (clip_of (DetermineAnimation c))).
Proof.
  intros Hlib. apply PlayAnimation_loaded; [exact Hlib |].
  apply DetermineAnimation_in_library.
Qed.

(** X2.  In any world that can arise the clip library holds exactly the
    six names: [PlayAnimation] with one of them replaces the current
    animation by a played copy of that clip and changes nothing else,
    [PlayAnimation] with any other name changes nothing at all. *)
Theorem PlayAnimation_known_or_ignored (g : world) (name : string)
    (Hreachable : reachable g) :
  (In name clip_names ->
   PlayAnimation name (self g)
   = set_currentAnimation (self g)
       (Some (Animation_Play (Animation_new (String.append name ".anim"))))) /\
  (~ In name clip_names -> PlayAnimation name (self g) = self g).
Proof.
  pose proof (CharacterSpec.reachable_animations g Hreachable) as Hlib.
  split.
  - intros Hin. apply PlayAnimation_loaded; assumption.
  - intros Hout. unfold PlayAnimation. rewrite Hlib, (library_lacks name Hout).
    reflexivity.
Qed.

(** *** The clip that plays *)

Lemma matches_after_play (c : t) :
  animations c = LoadAnimations ∅ -> animation_matches_state (UpdateAnimation c).
Proof.
  intros Hlib. right. rewrite UpdateAnimation_loaded by exact Hlib.
  unfold DetermineAnimation. reflexivity.
Qed.

Lemma matches_transfer (c c' : t) :
  currentAnimation c' = currentAnimation c ->
  animState c' = animState c -> velocity c' = velocity c ->
  animation_matches_state c -> animation_matches_state c'.
Proof.
  unfold animation_matches_state. intros -> Ha Hv.
  rewrite (DetermineAnimation_ext c c' Ha Hv). trivial.
Qed.

Lemma Move_matches (d : glm.vec3) (dt : F32.float) (c : t) :
  animations c = LoadAnimations ∅ -> animation_matches_state (Move d dt c).
Proof.
  intros Hlib. unfold Move.
  match goal with
  | |- context [UpdateAnimation ?c0] => remember c0 as c1 eqn:Hc1
  end.
  assert (Hlib1 : animations c1 = LoadAnimations ∅) by (subst c1; exact Hlib).
  destruct (UpdateCollision _ _) as [ph pos].
  eapply matches_transfer; [| | | apply (matches_after_play c1 Hlib1)]; reflexivity.
Qed.

Lemma Reload_matches (g : world) :
  animations (self g) = LoadAnimations ∅ ->
  animation_matches_state (self g) -> animation_matches_state (self (Reload g)).
Proof.
  intros Hlib Hm. unfold Reload.
  destruct (currentWeapon (self g)) as [p |]; [| exact Hm].
  destruct (negb (isReloading (animState (self g)))); [| exact Hm].
  cbn [self]. right.
  rewrite PlayAnimation_loaded by (try exact Hlib; simpl; tauto).
  reflexivity.
Qed.

Lemma Shoot_matches (g : world) :
  animations (self g) = LoadAnimations ∅ ->
  animation_matches_state (self g) -> animation_matches_state (self (Shoot g)).
Proof.
  intros Hlib Hm. unfold Shoot.
  destruct (currentWeapon (self g)) as [p |] eqn:Hp; [| exact Hm].
  destruct (isReloading (animState (self g))) eqn:Hr; [exact Hm |].
  cbn [negb]. destruct (Weapon.CanShoot (weapons g p)).
  - cbn [self]. right.
    rewrite PlayAnimation_loaded by (try exact Hlib; simpl; tauto).
    unfold DetermineAnimation. simpl. rewrite Hr. reflexivity.
  - destruct (Weapon.NeedsReload (weapons g p)); [| exact Hm].
    apply Reload_matches; assumption.
Qed.

Lemma step_matches (k : call) (g : world) :
  animations (self g) = LoadAnimations ∅ ->
  animation_matches_state (self g) -> animation_matches_state (self (step k g)).
Proof.
  intros Hlib Hm. destruct k; cbn [step on_self on_weapon self].
  - apply Move_matches, Hlib.
  - revert Hm. apply matches_transfer; reflexivity.
  - revert Hm. apply matches_transfer;
      unfold PickupWeapon; destruct (_ <? _)%nat; simpl;
      destruct (currentWeapon (self g)); reflexivity.
  - apply Shoot_matches; assumption.
  - apply Reload_matches; assumption.
  - apply matches_after_play, Hlib.
  - unfold StartSprint. destruct (_ && _); [apply matches_after_play, Hlib | exact Hm].
  - apply matches_after_play, Hlib.
  - apply matches_after_play, Hlib.
  - exact Hm.
  - exact Hm.
Qed.

Lemma run_matches (ks : list call) (g : world) :
  animations (self g) = LoadAnimations ∅ ->
  animation_matches_state (self g) -> animation_matches_state (self (run ks g)).
Proof.
  revert g. induction ks as [| k ks IH]; intros g Hlib Hm; simpl; [exact Hm |].
  apply IH.
  - rewrite CharacterSpec.step_animations. exact Hlib.
  - apply step_matches; assumption.
Qed.

Lemma reachable_matches (g : world) :
  reachable g -> animation_matches_state (self g).
Proof.
  intros (ks & startPos & ws & ->).
  apply run_matches; [reflexivity | left; reflexivity].
Qed.

(** X3.  The animation follows the state.  In any world that can arise,
    either no clip has been played yet or the clip playing is the one
    [DetermineAnimation] names for the character as it is now; and
    [UpdateAnimation] always finds the clip it asks for. *)
Theorem animation_follows_state (g : world) (Hreachable : reachable g) :
  (currentAnimation (self g) = None \/
   currentAnimation (self g)
   = Some (Animation_Play
             (Animation_new (String.append (DetermineAnimation (self g)) ".anim")))) /\
  currentAnimation (UpdateAnimation (self g))
  = Some (Animation_Play
            (Animation_new (String.append (DetermineAnimation (self g)) ".anim"))).
Proof.
  split.
  - apply (reachable_matches g Hreachable).
  - rewrite UpdateAnimation_loaded
      by (apply CharacterSpec.reachable_animations, Hreachable).
    reflexivity.
Qed.

(** *** Crouching and sprinting *)



Lemma StopSprint_twice (c : t) : StopSprint (StopSprint c) = StopSprint c.
Proof.
  unfold StopSprint, UpdateAnimation.
  set (c1 := set_animState c (set_isRunning (animState c) false)).
  set (n := DetermineAnimation c1).
  assert (Hback : set_animState (PlayAnimation n c1)
                    (set_isRunning (animState (PlayAnimation n c1)) false)
                  = PlayAnimation n c1).
  { rewrite CharacterSpec.PlayAnimation_animState.
    unfold PlayAnimation. destruct (animations c1 !! n); subst c1;
      destruct c as [pos rot vel st [run crouch aim shoot reload] ph cw inv ca lib];
      reflexivity. }
  rewrite Hback, DetermineAnimation_PlayAnimation. apply PlayAnimation_twice.
Qed.

Lemma StartSprint_twice (c : t) : StartSprint (StartSprint c) = StartSprint c.
Proof.
  unfold StartSprint at 2 3.
  destruct (negb (isCrouching (animState c)) && negb (isAiming (animState c))) eqn:Hok.
  - unfold UpdateAnimation.
    set (c1 := set_animState c (set_isRunning (animState c) true)).
    set (n := DetermineAnimation c1).
    unfold StartSprint. rewrite CharacterSpec.PlayAnimation_animState.
    assert (Hok1 : negb (isCrouching (animState c1)) && negb (isAiming (animState c1))
                   = true) by (subst c1; exact Hok).
    rewrite Hok1.
    assert (Hback : set_animState (PlayAnimation n c1) (set_isRunning (animState c1) true)
                    = PlayAnimation n c1).
    { unfold PlayAnimation. destruct (animations c1 !! n); subst c1;
        destruct c as [pos rot vel st [run crouch aim shoot reload] ph cw inv ca lib];
        reflexivity. }
    rewrite Hback. unfold UpdateAnimation.
    rewrite DetermineAnimation_PlayAnimation. apply PlayAnimation_twice.
  - unfold StartSprint. rewrite Hok. reflexivity.
Qed.

(** X5.  [StopSprint] always leaves the character not running, and both
    sprint calls are idempotent: a second [StopSprint] or a second
    [StartSprint] in a row changes nothing. *)
Theorem sprint_calls_idempotent (c : t) :
  isRunning (animState (StopSprint c)) = false /\
  StopSprint (StopSprint c) = StopSprint c /\
  StartSprint (StartSprint c) = StartSprint c.
Proof.
  split; [| split; [apply StopSprint_twice | apply StartSprint_twice]].
  unfold StopSprint. rewrite CharacterSpec.UpdateAnimation_animState. reflexivity.
Qed.

(** X6.  [StopSprint] undoes [StartSprint]: in a world that can arise,
    stopping right after starting leaves the character as a plain
    [StopSprint] would. *)
Theorem StopSprint_after_StartSprint (g : world) (Hreachable : reachable g) :
  StopSprint (StartSprint (self g)) = StopSprint (self g).
Proof.
  pose proof (CharacterSpec.reachable_animations g Hreachable) as Hlib.
  unfold StartSprint.
  destruct (negb (isCrouching (animState (self g))) && negb (isAiming (animState (self g))));
    [| reflexivity].
  unfold StopSprint.
  rewrite (UpdateAnimation_loaded (set_animState (self g) _)) by exact Hlib.
  rewrite !UpdateAnimation_loaded by exact Hlib.
  destruct (self g) as [pos rot vel st [run crouch aim shoot reload] ph cw inv ca lib].
  reflexivity.
Qed.

(** *** Flags and stats over time *)

Lemma flags_advance_refl (a : AnimationState) : flags_advance a a.
Proof. unfold flags_advance. tauto. Qed.

Lemma flags_advance_trans (a b c : AnimationState) :
  flags_advance a b -> flags_advance b c -> flags_advance a c.
Proof.
  unfold flags_advance. intros (Hs1 & Hr1 & Ha1) (Hs2 & Hr2 & Ha2).
  repeat split; [auto | auto | congruence].
Qed.

Lemma Move_animState (d : glm.vec3) (dt : F32.float) (c : t) :
  animState (Move d dt c) = animState c.
Proof.
  unfold Move. destruct (UpdateCollision _ _) as [ph pos].
  cbn [animState set_position set_physics].
  rewrite CharacterSpec.UpdateAnimation_animState. reflexivity.
Qed.

Lemma PickupWeapon_animState (w : weapon_ptr) (c : t) :
  animState (snd (PickupWeapon w c)) = animState c.
Proof.
  unfold PickupWeapon. destruct (_ <? _)%nat; [| reflexivity].
  simpl. destruct (currentWeapon c); reflexivity.
Qed.

Lemma Reload_flags (g : world) :
  flags_advance (animState (self g)) (animState (self (Reload g))).
Proof.
  unfold Reload. destruct (currentWeapon (self g)); [| apply flags_advance_refl].
  destruct (negb (isReloading (animState (self g)))); [| apply flags_advance_refl].
  cbn [self]. rewrite CharacterSpec.PlayAnimation_animState.
  unfold flags_advance. simpl. tauto.
Qed.

Lemma Shoot_flags (g : world) :
  flags_advance (animState (self g)) (animState (self (Shoot g))).
Proof.
  unfold Shoot. destruct (currentWeapon (self g)) as [p |]; [| apply flags_advance_refl].
  destruct (negb (isReloading (animState (self g)))); [| apply flags_advance_refl].
  destruct (Weapon.CanShoot (weapons g p)).
  - cbn [self]. rewrite CharacterSpec.PlayAnimation_animState.
    unfold flags_advance. simpl. tauto.
  - destruct (Weapon.NeedsReload (weapons g p));
      [apply Reload_flags | apply flags_advance_refl].
Qed.

Lemma step_flags (k : call) (g : world) :
  flags_advance (animState (self g)) (animState (self (step k g))).
Proof.
  destruct k; cbn [step on_self on_weapon self];
    try apply flags_advance_refl.
  - rewrite Move_animState. apply flags_advance_refl.
  - rewrite PickupWeapon_animState. apply flags_advance_refl.
  - apply Shoot_flags.
  - apply Reload_flags.
  - unfold ToggleCrouch. rewrite CharacterSpec.UpdateAnimation_animState.
    unfold flags_advance. simpl. tauto.
  - unfold StartSprint. destruct (_ && _); [| apply flags_advance_refl].
    rewrite CharacterSpec.UpdateAnimation_animState.
    unfold flags_advance. simpl. tauto.
  - unfold StopSprint. rewrite CharacterSpec.UpdateAnimation_animState.
    unfold flags_advance. simpl. tauto.
  - rewrite CharacterSpec.UpdateAnimation_animState. apply flags_advance_refl.
Qed.

Lemma run_flags (ks : list call) (g : world) :
  flags_advance (animState (self g)) (animState (self (run ks g))).
Proof.
  revert g. induction ks as [| k ks IH]; intros g; simpl.
  - apply flags_advance_refl.
  - eapply flags_advance_trans; [apply step_flags | apply IH].
Qed.

Lemma PlayAnimation_stats (name : string) (c : t) :
  stats (PlayAnimation name c) = stats c /\ rotation (PlayAnimation name c) = rotation c.
Proof. unfold PlayAnimation. destruct (animations c !! name); split; reflexivity. Qed.

(** Every call keeps the stats, and every call but [Rotate] the rotation. *)
Lemma step_stats (k : call) (g : world) :
  stats (self (step k g)) = stats (self g) /\
  ((forall yd dt, k <> call_Rotate yd dt) ->
   rotation (self (step k g)) = rotation (self g)).
Proof.
  destruct k as [d dt | yd dt | w | | | | | | | q | q];
    cbn [step on_self on_weapon self].
  - unfold Move. destruct (UpdateCollision _ _) as [ph pos].
    cbn [stats rotation set_position set_physics]. unfold UpdateAnimation.
    match goal with
    | |- context [PlayAnimation ?n ?c0] => destruct (PlayAnimation_stats n c0) as [-> ->]
    end.
    split; reflexivity.
  - split; [reflexivity |]. intros Hk. exfalso. apply (Hk yd dt). reflexivity.
  - unfold PickupWeapon. destruct (_ <? _)%nat; [| split; reflexivity].
    simpl. destruct (currentWeapon (self g)); split; reflexivity.
  - unfold Shoot, Reload.
    destruct (currentWeapon (self g)) as [p |]; [| split; reflexivity].
    destruct (negb (isReloading (animState (self g)))); [| split; reflexivity].
    destruct (Weapon.CanShoot (weapons g p));
      [| destruct (Weapon.NeedsReload (weapons g p)); [| split; reflexivity]];
      cbn [self];
      match goal with
      | |- context [PlayAnimation ?n ?c0] => destruct (PlayAnimation_stats n c0) as [-> ->]
      end; split; reflexivity.
  - unfold Reload.
    destruct (currentWeapon (self g)) as [p |]; [| split; reflexivity].
    destruct (negb (isReloading (animState (self g)))); [| split; reflexivity].
    cbn [self].
    match goal with
    | |- context [PlayAnimation ?n ?c0] => destruct (PlayAnimation_stats n c0) as [-> ->]
    end; split; reflexivity.
  - unfold ToggleCrouch, UpdateAnimation.
    match goal with
    | |- context [PlayAnimation ?n ?c0] => destruct (PlayAnimation_stats n c0) as [-> ->]
    end; split; reflexivity.
  - unfold StartSprint. destruct (_ && _); [| split; reflexivity].
    unfold UpdateAnimation.
    match goal with
    | |- context [PlayAnimation ?n ?c0] => destruct (PlayAnimation_stats n c0) as [-> ->]
    end; split; reflexivity.
  - unfold StopSprint, UpdateAnimation.
    match goal with
    | |- context [PlayAnimation ?n ?c0] => destruct (PlayAnimation_stats n c0) as [-> ->]
    end; split; reflexivity.
  - unfold UpdateAnimation.
    match goal with
    | |- context [PlayAnimation ?n ?c0] => destruct (PlayAnimation_stats n c0) as [-> ->]
    end; split; reflexivity.
  - split; reflexivity.
  - split; reflexivity.
Qed.

Lemma run_stats (ks : list call) (g : world) :
  stats (self (run ks g)) = stats (self g).
Proof.
  revert g. induction ks as [| k ks IH]; intros g; simpl; [reflexivity |].
  rewrite IH. apply step_stats.
Qed.

(** The clip chosen once a flag at the top of the list is up. *)
Lemma DetermineAnimation_reloading (c : t) :
  isReloading (animState c) = true -> DetermineAnimation c = "reload".
Proof. unfold DetermineAnimation. intros ->. reflexivity. Qed.

Lemma DetermineAnimation_shooting (c : t) :
  isShooting (animState c) = true ->
  DetermineAnimation c = "shoot" \/ DetermineAnimation c = "reload".
Proof.
  unfold DetermineAnimation. intros ->.
  destruct (isReloading (animState c)); [right | left]; reflexivity.
Qed.

(** X7.  The shooting flag is never lowered.  Once a shot has raised it,
    whatever is called afterwards, it is still up, and the only clips
    [DetermineAnimation] names from then on are "shoot" and "reload". *)
Theorem shooting_flag_is_permanent (ks : list call) (g : world)
    (Hshot : isShooting (animState (self g)) = true) :
  isShooting (animState (self (run ks g))) = true /\
  (DetermineAnimation (self (run ks g)) = "shoot" \/
   DetermineAnimation (self (run ks g)) = "reload").
Proof.
  destruct (run_flags ks g) as (Hs & _ & _).
  split; [exact (Hs Hshot) |]. apply DetermineAnimation_shooting, Hs, Hshot.
Qed.

(** X8.  The character's reloading flag is never lowered either.  Once
    it is up, after any further calls the clip named is "reload" and both
    [Shoot] and [Reload] do nothing: the character never fires again. *)
Theorem reloading_flag_is_permanent (ks : list call) (g : world)
    (Hreloading : isReloading (animState (self g)) = true) :
  isReloading (animState (self (run ks g))) = true /\
  DetermineAnimation (self (run ks g)) = "reload" /\
  Shoot (run ks g) = run ks g /\
  Reload (run ks g) = run ks g.
Proof.
  destruct (run_flags ks g) as (_ & Hr & _). specialize (Hr Hreloading).
  split; [exact Hr |]. split; [apply DetermineAnimation_reloading, Hr |].
  unfold Shoot, Reload. rewrite Hr.
  destruct (currentWeapon (self (run ks g))); split; reflexivity.
Qed.

(** X9.  No call writes the aiming flag or the stats.  So in every world
    that can arise the character is not aiming and has the default stats,
    and [StartSprint] leaves it running exactly when it was running
    already or is not crouching. *)
Theorem never_aiming (g : world) (Hreachable : reachable g) :
  isAiming (animState (self g)) = false /\
  stats (self g) = default_stats /\
  (isRunning (animState (StartSprint (self g))) = true <->
   isRunning (animState (self g)) = true \/ isCrouching (animState (self g)) = false).
Proof.
  assert (Haim : isAiming (animState (self g)) = false).
  { destruct Hreachable as (ks & startPos & ws & ->).
    destruct (run_flags ks (mk_world (new startPos) ws)) as (_ & _ & ->). reflexivity. }
  split; [exact Haim |]. split.
  - destruct Hreachable as (ks & startPos & ws & ->). rewrite run_stats. reflexivity.
  - unfold StartSprint. rewrite Haim.
    destruct (isCrouching (animState (self g))) eqn:Hc; simpl.
    + split; [tauto | intros [Hr | Hf]; [exact Hr | discriminate Hf]].
    + rewrite CharacterSpec.UpdateAnimation_animState. simpl. tauto.
Qed.

(** *** The weapon store *)

Lemma Reload_store (g : world) (q : addr) :
  currentWeapon (self g) <> Some q -> weapons (Reload g) q = weapons g q.
Proof.
  intros Hq. unfold Reload. destruct (currentWeapon (self g)) as [p |]; [| reflexivity].
  destruct (negb (isReloading (animState (self g)))); [| reflexivity].
  cbn [weapons]. apply fn_lookup_alter_ne. congruence.
Qed.

Lemma Shoot_store (g : world) (q : addr) :
  currentWeapon (self g) <> Some q -> weapons (Shoot g) q = weapons g q.
Proof.
  intros Hq. unfold Shoot.
  destruct (currentWeapon (self g)) as [p |] eqn:Hp; [| reflexivity].
  destruct (negb (isReloading (animState (self g)))); [| reflexivity].
  destruct (Weapon.CanShoot (weapons g p)).
  - cbn [weapons]. apply fn_lookup_alter_ne. congruence.
  - destruct (Weapon.NeedsReload (weapons g p)); [| reflexivity].
    apply Reload_store. rewrite Hp. exact Hq.
Qed.

(** X10.  The character reaches no weapon but the one it has equipped: a
    call on the character leaves every other weapon as it was, also the
    other weapons of its inventory, and a call made directly on a weapon
    leaves the character as it was. *)
Theorem character_touches_equipped_only (k : call) (g : world) (q : addr)
    (Hcharacter : forall p, k <> call_Weapon_Shoot p /\ k <> call_Weapon_StartReload p)
    (Hother : currentWeapon (self g) <> Some q) :
  weapons (step k g) q = weapons g q /\
  (forall p, self (step (call_Weapon_Shoot p) g) = self g /\
             self (step (call_Weapon_StartReload p) g) = self g).
Proof.
  split; [| intros p; split; reflexivity].
  destruct k as [| | | | | | | | | p | p]; cbn [step on_self weapons];
    try reflexivity.
  - apply Shoot_store, Hother.
  - apply Reload_store, Hother.
  - destruct (Hcharacter p) as [Hk _]. contradiction Hk. reflexivity.
  - destruct (Hcharacter p) as [_ Hk]. contradiction Hk. reflexivity.
Qed.



(** *** The inventory *)

(** X12.  The inventory only grows, and only at its end: after any
    sequence of calls it is what it was followed by the weapons picked up
    since, so nothing held is ever dropped, replaced or moved. *)
Theorem inventory_only_grows (ks : list call) (g : world) :
  exists more : list weapon_ptr,
    inventory (self (run ks g)) = inventory (self g) ++ more /\
    (forall (i : nat) (w : weapon_ptr),
        nth_error (inventory (self g)) i = Some w ->
        nth_error (inventory (self (run ks g))) i = Some w).
Proof.
  assert (Hgrow : exists more, inventory (self (run ks g)) = inventory (self g) ++ more).
  { revert g. induction ks as [| k ks IH]; intros g; simpl.
    - exists []. rewrite app_nil_r. reflexivity.
    - destruct (IH (step k g)) as [more ->].
      destruct (CharacterSpec.is_pickup_dec k) as [[w ->] | Hk].
      + cbn [step on_self self]. unfold PickupWeapon.
        destruct (_ <? _)%nat; simpl.
        * exists (w :: more).
          destruct (currentWeapon (self g)); simpl; rewrite <- app_assoc; reflexivity.
        * exists more. reflexivity.
      + destruct (CharacterSpec.step_equipment k g) as (_ & -> & _).
        { intros w ->. apply Hk. exists w. reflexivity. }
        exists more. reflexivity. }
  destruct Hgrow as [more Hmore]. exists more. split; [exact Hmore |].
  intros i w Hi. rewrite Hmore. rewrite nth_error_app1; [exact Hi |].
  apply nth_error_Some. congruence.
Qed.

(** *** Firing *)

(** X13.  A shot that goes off.  In a world that can arise, when the
    character is not reloading and its equipped weapon can shoot, [Shoot]
    takes exactly one round from that weapon, stamps the shot with the
    current time, raises the shooting flag and plays "shoot"; the
    character is still not reloading and every other weapon is as it
    was. *)
Theorem Shoot_fires_round (g : world) (p : addr)
    (Hreachable : reachable g)
    (Hequipped : currentWeapon (self g) = Some p)
    (Hidle : isReloading (animState (self g)) = false)
    (Hready : Weapon.CanShoot (weapons g p) = true)
    (Hint : is_int (Weapon.currentAmmo (Weapon.stats (weapons g p)))) :
  Weapon.currentAmmo (Weapon.stats (weapons (Shoot g) p))
  = Weapon.currentAmmo (Weapon.stats (weapons g p)) - 1 /\
  Weapon.lastShotTime (weapons (Shoot g) p) = F32.zero /\
  isShooting (animState (self (Shoot g))) = true /\
  isReloading (animState (self (Shoot g))) = false /\
  currentAnimation (self (Shoot g))
  = Some (Animation_Play (Animation_new "shoot.anim")) /\
  (forall q, q <> p -> weapons (Shoot g) q = weapons g q).
Proof.
  pose proof (CharacterSpec.reachable_animations g Hreachable) as Hlib.
  assert (Hfire : Shoot g
                  = mk_world
                      (PlayAnimation "shoot"
                         (set_animState (self g) (set_isShooting (animState (self g)) true)))
                      (alter Weapon.Shoot p (weapons g))).
  { unfold Shoot. rewrite Hequipped, Hidle, Hready. reflexivity. }
  rewrite Hfire. cbn [self weapons].
  rewrite fn_lookup_alter, CharacterSpec.PlayAnimation_animState.
  rewrite PlayAnimation_loaded by (try exact Hlib; simpl; tauto).
  split; [| split; [| split; [| split; [| split]]]].
  - rewrite WeaponSpec.Shoot_fires by exact Hready.
    apply WeaponSpec.CanShoot_spec in Hready as [_ Hpos].
    apply int_wrap_id. unfold is_int, INT_MIN, INT_MAX in *. lia.
  - unfold Weapon.Shoot. rewrite Hready. reflexivity.
  - reflexivity.
  - simpl. exact Hidle.
  - reflexivity.
  - intros q Hq. apply fn_lookup_alter_ne. congruence.
Qed.

(** X14.  An unarmed character cannot shoot or reload.  With nothing
    equipped, any sequence of calls on the character that picks nothing
    up leaves every weapon untouched, both combat flags as they were and
    the character unarmed. *)
Theorem unarmed_never_fires (ks : list call) (g : world)
    (Hunarmed : currentWeapon (self g) = None)
    (Hno_pickup : forall w, ~ In (call_PickupWeapon w) ks)
    (Hno_weapon_call :
       forall p, ~ In (call_Weapon_Shoot p) ks /\ ~ In (call_Weapon_StartReload p) ks) :
  currentWeapon (self (run ks g)) = None /\
  isShooting (animState (self (run ks g))) = isShooting (animState (self g)) /\
  isReloading (animState (self (run ks g))) = isReloading (animState (self g)) /\
  (forall p, weapons (run ks g) p = weapons g p).
Proof.
  revert g Hunarmed. induction ks as [| k ks IH]; intros g Hunarmed; simpl.
  - repeat split. exact Hunarmed.
  - assert (Hk : currentWeapon (self (step k g)) = None /\
                 isShooting (animState (self (step k g))) = isShooting (animState (self g)) /\
                 isReloading (animState (self (step k g)))
                 = isReloading (animState (self g)) /\
                 (forall p, weapons (step k g) p = weapons g p)).
    { destruct k as [d dt | yd dt | w | | | | | | | p | p];
        cbn [step on_self on_weapon self weapons].
      - rewrite Move_animState.
        destruct (CharacterSpec.Move_equipment d dt (self g)) as (-> & _ & _).
        repeat split. exact Hunarmed.
      - repeat split. exact Hunarmed.
      - exfalso. apply (Hno_pickup w). left. reflexivity.
      - unfold Shoot. rewrite Hunarmed. repeat split. exact Hunarmed.
      - unfold Reload. rewrite Hunarmed. repeat split. exact Hunarmed.
      - unfold ToggleCrouch. rewrite CharacterSpec.UpdateAnimation_animState.
        destruct (CharacterSpec.ToggleCrouch_equipment (self g)) as (Hw & _ & _).
        unfold ToggleCrouch in Hw. rewrite Hw. repeat split. exact Hunarmed.
      - destruct (CharacterSpec.StartSprint_equipment (self g)) as (-> & _ & _).
        unfold StartSprint. destruct (_ && _);
          [rewrite CharacterSpec.UpdateAnimation_animState |];
          repeat split; exact Hunarmed.
      - unfold StopSprint. rewrite CharacterSpec.UpdateAnimation_animState.
        destruct (CharacterSpec.StopSprint_equipment (self g)) as (Hw & _ & _).
        unfold StopSprint in Hw. rewrite Hw. repeat split. exact Hunarmed.
      - rewrite CharacterSpec.UpdateAnimation_animState.
        destruct (CharacterSpec.UpdateAnimation_equipment (self g)) as (-> & _ & _).
        repeat split. exact Hunarmed.
      - exfalso. destruct (Hno_weapon_call p) as [Hk _]. apply Hk. left. reflexivity.
      - exfalso. destruct (Hno_weapon_call p) as [_ Hk]. apply Hk. left. reflexivity. }
    destruct Hk as (Hw & Hs & Hr & Hst).
    destruct (IH) with (g := step k g) as (Hw' & Hs' & Hr' & Hst').
    + intros w Hin. apply (Hno_pickup w). right. exact Hin.
    + intros p. destruct (Hno_weapon_call p) as [H1 H2].
      split; intros Hin; [apply H1 | apply H2]; right; exact Hin.
    + exact Hw.
    + split; [exact Hw' |]. split; [congruence |]. split; [congruence |].
      intros p. rewrite Hst'. apply Hst.
Qed.

(** *** Turning and moving at the edges *)

(** X15.  What [Rotate] does to any finite sum, negative ones included:
    the new yaw is strictly between -360 and 360 and on the side of zero
    the incremented yaw was on, so a negative sum gives a yaw that is
    negative or zero. *)
Theorem Rotate_keeps_sign (c : t) (yawDelta deltaTime : F32.float)
    (Hvalid : F32.valid (incremented_yaw c yawDelta deltaTime) = true)
    (Hfinite : F32.is_finite (incremented_yaw c yawDelta deltaTime) = true) :
  F32.ltb (F32.of_Z2 (-360) 0) (glm.y (rotation (Rotate yawDelta deltaTime c))) = true /\
  F32.ltb (glm.y (rotation (Rotate yawDelta deltaTime c))) F32.lit_360 = true /\
  (F32.leb F32.zero (incremented_yaw c yawDelta deltaTime) = true ->
   F32.leb F32.zero (glm.y (rotation (Rotate yawDelta deltaTime c))) = true) /\
  (F32.leb (incremented_yaw c yawDelta deltaTime) F32.zero = true ->
   F32.leb (glm.y (rotation (Rotate yawDelta deltaTime c))) F32.zero = true).
Proof.
  rewrite CharacterSpec.Rotate_yaw.
  apply F32Laws.fmod_360_magnitude; assumption.
Qed.

Lemma Rotate_nan (yd dt : F32.float) (c : t) :
  glm.y (rotation c) = S754_nan -> glm.y (rotation (Rotate yd dt c)) = S754_nan.
Proof.
  intros Hnan. rewrite CharacterSpec.Rotate_yaw. unfold incremented_yaw.
  rewrite Hnan. reflexivity.
Qed.

Lemma step_yaw_nan (k : call) (g : world) :
  glm.y (rotation (self g)) = S754_nan ->
  glm.y (rotation (self (step k g))) = S754_nan.
Proof.
  intros Hnan. destruct k as [d dt | yd dt | w | | | | | | | q | q];
    try (match goal with
         | |- context [step ?k g] =>
             destruct (step_stats k g) as [_ Hrot];
             rewrite Hrot by (intros; discriminate); exact Hnan
         end).
  cbn [step on_self self]. apply Rotate_nan, Hnan.
Qed.

(** X16.  A turn that overflows is never repaired.  If the incremented
    yaw of a [Rotate] is an infinity or NaN, the yaw it stores is NaN, and
    it is still NaN after any sequence of further calls. *)
Theorem Rotate_overflow_is_permanent (c : t) (yawDelta deltaTime : F32.float)
    (ks : list call) (ws : weapon_store)
    (Hoverflow : F32.is_finite (incremented_yaw c yawDelta deltaTime) = false) :
  glm.y (rotation (Rotate yawDelta deltaTime c)) = S754_nan /\
  glm.y (rotation (self (run ks (mk_world (Rotate yawDelta deltaTime c) ws)))) = S754_nan.
Proof.
  assert (Hnan : glm.y (rotation (Rotate yawDelta deltaTime c)) = S754_nan).
  { rewrite CharacterSpec.Rotate_yaw. apply F32Laws.fmod_not_finite, Hoverflow. }
  split; [exact Hnan |].
  generalize (mk_world (Rotate yawDelta deltaTime c) ws) (Hnan : glm.y (rotation (self (mk_world (Rotate yawDelta deltaTime c) ws))) = S754_nan).
  induction ks as [| k ks IH]; intros g Hg; simpl; [exact Hg |].
  apply IH, step_yaw_nan, Hg.
Qed.

(** X17.  Only [Rotate] writes the rotation, and it writes the yaw only:
    in every world that can arise the other two components are the zeros
    the constructor stored. *)
Theorem only_yaw_turns (g : world) (Hreachable : reachable g) :
  glm.x (rotation (self g)) = F32.zero /\
  glm.z (rotation (self g)) = F32.zero /\
  (forall k, (forall yd dt, k <> call_Rotate yd dt) ->
             rotation (self (step k g)) = rotation (self g)).
Proof.
  assert (Hxz : glm.x (rotation (self g)) = F32.zero /\ glm.z (rotation (self g)) = F32.zero).
  { destruct Hreachable as (ks & startPos & ws & ->).
    assert (Hstart : glm.x (rotation (self (mk_world (new startPos) ws))) = F32.zero /\
                     glm.z (rotation (self (mk_world (new startPos) ws))) = F32.zero)
      by (split; reflexivity).
    revert Hstart. generalize (mk_world (new startPos) ws).
    induction ks as [| k ks IH]; intros g Hg; simpl; [exact Hg |].
    apply IH. destruct k as [d dt | yd dt | w | | | | | | | q | q];
      try (match goal with
           | |- context [step ?k g] =>
               destruct (step_stats k g) as [_ Hrot];
               rewrite Hrot by (intros; discriminate); exact Hg
           end).
    exact Hg. }
  destruct Hxz as [Hx Hz]. split; [exact Hx |]. split; [exact Hz |].
  intros k Hk. apply step_stats, Hk.
Qed.

Lemma PlayAnimation_body (name : string) (c : t) :
  position (PlayAnimation name c) = position c /\
  physics (PlayAnimation name c) = physics c.
Proof. unfold PlayAnimation. destruct (animations c !! name); split; reflexivity. Qed.

(** X18.  [Move] with a direction of length zero.  Normalising divides
    zero by zero, so whatever the time step and the speed, the velocity
    becomes NaN in every component, the collider is handed a position
    that is NaN in every component, and with no flag up the clip named
    afterwards is "idle", since NaN does not exceed the threshold. *)
Theorem Move_zero_direction (sx sy sz : bool) (deltaTime : F32.float) (c : t) :
  velocity
    (Move (glm.mk_vec3 (S754_zero sx) (S754_zero sy) (S754_zero sz)) deltaTime c)
  = glm.splat S754_nan /\
  position
    (Move (glm.mk_vec3 (S754_zero sx) (S754_zero sy) (S754_zero sz)) deltaTime c)
  = snd (UpdateCollision (physics c) (glm.splat S754_nan)) /\
  (isReloading (animState c) = false -> isShooting (animState c) = false ->
   isCrouching (animState c) = false -> isRunning (animState c) = false ->
   DetermineAnimation
     (Move (glm.mk_vec3 (S754_zero sx) (S754_zero sy) (S754_zero sz)) deltaTime c)
   = "idle").
Proof.
  assert (Hdir : glm.normalize (glm.mk_vec3 (S754_zero sx) (S754_zero sy) (S754_zero sz))
                 = glm.splat S754_nan)
    by (destruct sx, sy, sz; reflexivity).
  assert (Hvel : forall s, glm.scale (glm.splat S754_nan) s = glm.splat S754_nan)
    by reflexivity.
  assert (Hpos : forall v, glm.plus v (glm.splat S754_nan) = glm.splat S754_nan).
  { intros v. unfold glm.plus, glm.splat. cbn [glm.x glm.y glm.z].
    rewrite !F32Laws.add_nan_r. reflexivity. }
  unfold Move. rewrite Hdir, Hvel.
  cbn [velocity position set_velocity set_position]. rewrite Hvel, Hpos.
  match goal with
  | |- context [UpdateAnimation ?c0] => remember c0 as c1 eqn:Hc1
  end.
  assert (Hv1 : velocity (UpdateAnimation c1) = glm.splat S754_nan)
    by (unfold UpdateAnimation; rewrite PlayAnimation_velocity; subst c1; reflexivity).
  assert (Ha1 : animState (UpdateAnimation c1) = animState c)
    by (rewrite CharacterSpec.UpdateAnimation_animState; subst c1; reflexivity).
  destruct (PlayAnimation_body (DetermineAnimation c1) c1) as [Hp1 Hph1].
  fold (UpdateAnimation c1) in Hp1, Hph1.
  rewrite Hp1, Hph1.
  replace (position c1) with (glm.splat S754_nan) by (subst c1; reflexivity).
  replace (physics c1) with (physics c) by (subst c1; reflexivity).
  destruct (UpdateCollision (physics c) (glm.splat S754_nan)) as [ph pos].
  split; [exact Hv1 |]. split; [reflexivity |].
  intros Hr Hs Hcr Hrun. unfold DetermineAnimation.
  cbn [animState velocity set_position set_physics].
  rewrite Ha1, Hv1, Hr, Hs, Hcr, Hrun. reflexivity.
Qed.

End WithEngine.

(** *** The laws at work on the plain engine *)

Lemma spent_reachable : reachable spent.
Proof.
  exists [call_PickupWeapon (Some 0%nat); call_Shoot], origin, armoury. reflexivity.
Qed.

Lemma armed_reachable : reachable armed.
Proof. exists [call_PickupWeapon (Some 0%nat)], origin, armoury. reflexivity. Qed.

Lemma dance_unknown : ~ In "dance"%string clip_names.
Proof.
  unfold clip_names. intros Hin.
  repeat (destruct Hin as [Hin | Hin]; [discriminate Hin |]). exact Hin.
Qed.

Lemma PlayAnimation_known_or_ignored_witness :
  reachable spent /\
  currentAnimation (PlayAnimation "walk" (self spent)) = Some "walk.anim"%string /\
  PlayAnimation "dance" (self spent) = self spent.
Proof.
  split; [exact spent_reachable |].
  destruct (PlayAnimation_known_or_ignored spent "walk" spent_reachable) as [Hknown _].
  destruct (PlayAnimation_known_or_ignored spent "dance" spent_reachable) as [_ Hignored].
  split; [| exact (Hignored dance_unknown)].
  rewrite Hknown; [reflexivity |]. unfold clip_names. simpl. tauto.
Defined.

Lemma animation_follows_state_witness :
  reachable spent /\
  currentAnimation (self spent) = Some "shoot.anim"%string /\
  currentAnimation (UpdateAnimation (self spent)) = Some "shoot.anim"%string.
Proof.
  split; [exact spent_reachable |]. split; [reflexivity |].
  destruct (animation_follows_state spent spent_reachable) as [_ Hplays].
  exact Hplays.
Defined.


Lemma StopSprint_after_StartSprint_witness :
  reachable armed /\
  isRunning (animState (StartSprint (self armed))) = true /\
  StopSprint (StartSprint (self armed)) = StopSprint (self armed).
Proof.
  split; [exact armed_reachable |]. split; [reflexivity |].
  exact (StopSprint_after_StartSprint armed armed_reachable).
Defined.

Lemma shooting_flag_is_permanent_witness :
  isShooting (animState (self spent)) = true /\
  isShooting
    (animState (self (run [call_StopSprint; call_ToggleCrouch; call_Shoot] spent)))
  = true.
Proof.
  split; [reflexivity |].
  destruct (shooting_flag_is_permanent
              [call_StopSprint; call_ToggleCrouch; call_Shoot] spent eq_refl)
    as [Hup _].
  exact Hup.
Defined.

Lemma reloading_flag_is_permanent_witness :
  isReloading (animState (self (Shoot spent))) = true /\
  Shoot (run [call_ToggleCrouch; call_PickupWeapon (Some 1%nat)] (Shoot spent))
  = run [call_ToggleCrouch; call_PickupWeapon (Some 1%nat)] (Shoot spent).
Proof.
  split; [reflexivity |].
  destruct (reloading_flag_is_permanent
              [call_ToggleCrouch; call_PickupWeapon (Some 1%nat)] (Shoot spent) eq_refl)
    as (_ & _ & Hshoot & _).
  exact Hshoot.
Defined.

Lemma never_aiming_witness :
  reachable spent /\
  isAiming (animState (self spent)) = false /\
  stats (self spent) = default_stats.
Proof.
  split; [exact spent_reachable |].
  destruct (never_aiming spent spent_reachable) as (Haim & Hstats & _).
  split; [exact Haim | exact Hstats].
Defined.

Lemma character_touches_equipped_only_witness :
  ((forall p, call_Shoot <> call_Weapon_Shoot p /\ call_Shoot <> call_Weapon_StartReload p) /\
   currentWeapon (self armed) <> Some 1%nat) /\
  weapons (step call_Shoot armed) 1%nat = weapons armed 1%nat.
Proof.
  assert (Hcharacter : forall p, call_Shoot <> call_Weapon_Shoot p /\
                                 call_Shoot <> call_Weapon_StartReload p)
    by (intros p; split; discriminate).
  assert (Hother : currentWeapon (self armed) <> Some 1%nat) by discriminate.
  split; [split; [exact Hcharacter | exact Hother] |].
  destruct (character_touches_equipped_only call_Shoot armed 1%nat Hcharacter Hother)
    as [Hsame _].
  exact Hsame.
Defined.


Lemma Shoot_fires_round_witness :
  (reachable armed /\
   currentWeapon (self armed) = Some 0%nat /\
   isReloading (animState (self armed)) = false /\
   Weapon.CanShoot (weapons armed 0%nat) = true /\
   is_int (Weapon.currentAmmo (Weapon.stats (weapons armed 0%nat)))) /\
  Weapon.currentAmmo (Weapon.stats (weapons (Shoot armed) 0%nat)) = 0 /\
  currentAnimation (self (Shoot armed)) = Some "shoot.anim"%string.
Proof.
  assert (Hint : is_int (Weapon.currentAmmo (Weapon.stats (weapons armed 0%nat))))
    by (split; discriminate).
  split; [split; [exact armed_reachable |];
          split; [reflexivity | split; [reflexivity | split; [reflexivity | exact Hint]]] |].
  destruct (Shoot_fires_round armed 0%nat armed_reachable eq_refl eq_refl eq_refl Hint)
    as (Hammo & _ & _ & _ & Hclip & _).
  split; [exact Hammo | exact Hclip].
Defined.

Lemma unarmed_never_fires_witness :
  (currentWeapon fresh = None /\
   (forall w, ~ In (call_PickupWeapon w) [call_Shoot; call_Reload; call_ToggleCrouch]) /\
   (forall p, ~ In (call_Weapon_Shoot p) [call_Shoot; call_Reload; call_ToggleCrouch] /\
              ~ In (call_Weapon_StartReload p) [call_Shoot; call_Reload; call_ToggleCrouch])) /\
  isReloading
    (animState (self (run [call_Shoot; call_Reload; call_ToggleCrouch]
                          (mk_world fresh armoury))))
  = false.
Proof.
  assert (Hno_pickup :
            forall w, ~ In (call_PickupWeapon w) [call_Shoot; call_Reload; call_ToggleCrouch]).
  { intros w Hin. repeat (destruct Hin as [Hin | Hin]; [discriminate Hin |]). exact Hin. }
  assert (Hno_weapon :
            forall p, ~ In (call_Weapon_Shoot p) [call_Shoot; call_Reload; call_ToggleCrouch] /\
                      ~ In (call_Weapon_StartReload p)
                          [call_Shoot; call_Reload; call_ToggleCrouch]).
  { intros p. split; intros Hin;
      repeat (destruct Hin as [Hin | Hin]; [discriminate Hin |]); exact Hin. }
  split; [split; [reflexivity | split; [exact Hno_pickup | exact Hno_weapon]] |].
  destruct (unarmed_never_fires [call_Shoot; call_Reload; call_ToggleCrouch]
              (mk_world fresh armoury) eq_refl Hno_pickup Hno_weapon)
    as (_ & _ & Hflag & _).
  exact Hflag.
Defined.

Lemma Rotate_keeps_sign_witness :
  (F32.valid (incremented_yaw fresh (F32.of_Z2 (-1) (-1)) F32.one) = true /\
   F32.is_finite (incremented_yaw fresh (F32.of_Z2 (-1) (-1)) F32.one) = true /\
   F32.leb (incremented_yaw fresh (F32.of_Z2 (-1) (-1)) F32.one) F32.zero = true) /\
  F32.ltb (F32.of_Z2 (-360) 0)
          (glm.y (rotation (Rotate (F32.of_Z2 (-1) (-1)) F32.one fresh))) = true /\
  F32.leb (glm.y (rotation (Rotate (F32.of_Z2 (-1) (-1)) F32.one fresh))) F32.zero = true.
Proof.
  split; [repeat split |].
  destruct (Rotate_keeps_sign fresh (F32.of_Z2 (-1) (-1)) F32.one eq_refl eq_refl)
    as (Hlow & _ & _ & Hneg).
  split; [exact Hlow | exact (Hneg eq_refl)].
Defined.

Lemma Rotate_overflow_is_permanent_witness :
  F32.is_finite (incremented_yaw fresh (F32.of_Z2 1 127) F32.one) = false /\
  glm.y (rotation
           (self (run [call_Rotate F32.one F32.one; call_ToggleCrouch]
                      (mk_world (Rotate (F32.of_Z2 1 127) F32.one fresh) armoury))))
  = S754_nan.
Proof.
  split; [reflexivity |].
  destruct (Rotate_overflow_is_permanent fresh (F32.of_Z2 1 127) F32.one
              [call_Rotate F32.one F32.one; call_ToggleCrouch] armoury eq_refl)
    as [_ Hlater].
  exact Hlater.
Defined.

Lemma only_yaw_turns_witness :
  reachable spent /\
  glm.x (rotation (self spent)) = F32.zero /\
  glm.z (rotation (self spent)) = F32.zero.
Proof.
  split; [exact spent_reachable |].
  destruct (only_yaw_turns spent spent_reachable) as (Hx & Hz & _).
  split; [exact Hx | exact Hz].
Defined.

End CharacterLaws.
